(** * The store-and-forward relay of [net_interface.py]

    A shallow embedding of the wire codec ([pack_message], [unpack_message]),
    of the relay's [Server.handleInteraction] over its mailbox queue, and of
    the client driver ([send], [receive]), followed by the properties proved
    about them. *)

From Stdlib Require Import ZArith NArith List Bool Lia.
From Stdlib Require Import Strings.String Strings.Ascii Strings.Byte.
From Stdlib Require Import Numbers.DecimalString.
Import ListNotations.

Local Open Scope string_scope.
Local Open Scope list_scope.
Local Open Scope Z_scope.

(** ** Values, exceptions and outcomes *)

(** A Python [bytes] object. *)
Definition bytes := list byte.

(** The exceptions the modelled code can raise.  The last four are the
    classes declared at the end of [net_interface.py]; [OSError],
    [ValueError] and [StructError] ([struct.error]) come from the library
    calls the code makes. *)
Inductive exn : Type :=
| OSError
| ValueError
| StructError
| ConnectionError
| AckTimeout
| ReceiveError
| CommandError.

(** What a call does: it returns a value, raises, or never returns
    ([queue.get()] on an empty queue in a single-threaded process). *)
Inductive result (A : Type) : Type :=
| Ok (a : A)
| Raise (e : exn)
| Blocks.
Arguments Ok {A} a.
Arguments Raise {A} e.
Arguments Blocks {A}.

Definition rbind {A B} (r : result A) (f : A -> result B) : result B :=
  match r with
  | Ok a => f a
  | Raise e => Raise e
  | Blocks => Blocks
  end.

Declare Scope result_scope.
Delimit Scope result_scope with result.
Notation "x <- r ;; k" := (rbind r (fun x => k))
  (at level 61, r at next level, right associativity) : result_scope.
Notation "' pat <- r ;; k" :=
  (rbind r (fun x => match x with pat => k end))
  (at level 61, pat pattern, r at next level, right associativity)
  : result_scope.
Local Open Scope result_scope.

(** ** Bytes and big-endian words *)

Definition Z_of_byte (b : byte) : Z := Z.of_N (Byte.to_N b).

(** The byte holding the low eight bits of [z]. *)
Definition byte_of_Z (z : Z) : byte :=
  match Byte.of_N (Z.to_N (Z.land z 255)) with
  | Some b => b
  | None => x00
  end.

(** ['!I'] on the way out: four bytes, most significant first. *)
Definition u32_to_be (z : Z) : bytes :=
  [ byte_of_Z (Z.shiftr z 24); byte_of_Z (Z.shiftr z 16);
    byte_of_Z (Z.shiftr z 8); byte_of_Z z ].

(** ['!I'] on the way in. *)
Definition be_to_u32 (b0 b1 b2 b3 : byte) : Z :=
  Z.lor (Z.shiftl (Z_of_byte b0) 24)
    (Z.lor (Z.shiftl (Z_of_byte b1) 16)
       (Z.lor (Z.shiftl (Z_of_byte b2) 8) (Z_of_byte b3))).

Definition bytes_eqb (a b : bytes) : bool :=
  if list_eq_dec Byte.byte_eq_dec a b then true else false.

(** [b'\x00\x00\x00\x00'] *)
Definition zero_addr : bytes := [x00; x00; x00; x00].

(** ** [struct.Struct('! I 4s 4s')] *)

Definition IPCMessage_size : nat := 12.

(** A ['4s'] field: the bytes given, cut or padded with null bytes to four. *)
Definition field_4s (b : bytes) : bytes := firstn 4 (b ++ repeat x00 4).

(** [IPCMessage.pack]: [struct.error] unless the command fits an unsigned
    32-bit integer. *)
Definition IPCMessage_pack (command : Z) (src dest : bytes) : result bytes :=
  if (0 <=? command) && (command <? 2 ^ 32)
  then Ok (u32_to_be command ++ field_4s src ++ field_4s dest)
  else Raise StructError.

(** [IPCMessage.unpack]: [struct.error] unless the buffer holds exactly
    twelve bytes. *)
Definition IPCMessage_unpack (buf : bytes) : result (Z * bytes * bytes) :=
  match buf with
  | [c0; c1; c2; c3; s0; s1; s2; s3; d0; d1; d2; d3] =>
      Ok (be_to_u32 c0 c1 c2 c3, [s0; s1; s2; s3], [d0; d1; d2; d3])
  | _ => Raise StructError
  end.

(** ** [socket.inet_aton] and [socket.inet_ntoa]

    [inet_aton] is the C library's: numbers-and-dots notation with one to
    four parts, each part read as by [strtoul(_, _, 0)]: hexadecimal after
    [0x], octal after a leading [0], decimal otherwise. *)

Definition digit_val (c : ascii) : option N :=
  let n := N_of_ascii c in
  if ((48 <=? n) && (n <=? 57))%N then Some (n - 48)%N
  else if ((97 <=? n) && (n <=? 102))%N then Some (n - 87)%N
  else if ((65 <=? n) && (n <=? 70))%N then Some (n - 55)%N
  else None.

Definition isdigit (c : ascii) : bool :=
  let n := N_of_ascii c in ((48 <=? n) && (n <=? 57))%N.

(** The C locale's [isspace]: space, and tab to carriage return. *)
Definition isspace (c : ascii) : bool :=
  let n := N_of_ascii c in ((n =? 32) || ((9 <=? n) && (n <=? 13)))%N.

(** The longest run of digits of [base] at the head of [s], read after
    [acc], and what follows it. *)
Fixpoint digits (base acc : N) (s : string) : N * string :=
  match s with
  | String c s' =>
      match digit_val c with
      | Some d => if (d <? base)%N then digits base (acc * base + d)%N s'
                  else (acc, s)
      | None => (acc, s)
      end
  | EmptyString => (acc, s)
  end.

Definition is_x (c : ascii) : bool :=
  let n := N_of_ascii c in ((n =? 120) || (n =? 88))%N.

(** [strtoul(s, &end, 0)] on a string that starts with a digit. *)
Definition strtoul (s : string) : N * string :=
  match s with
  | String "0" (String x s') =>
      if is_x x then
        match s' with
        | String h _ =>
            match digit_val h with
            | Some _ => digits 16 0 s'
            | None => (0%N, String x s')
            end
        | EmptyString => (0%N, String x s')
        end
      else digits 8 0 (String x s')
  | _ => digits 10 0 s
  end.

(** The loop of [inet_aton]: the parts before a dot are single bytes, at
    most three of them ([room] counts the free ones); the loop ends at the
    first number that no dot follows. *)
Fixpoint aton_loop (room : nat) (parts : list N) (s : string)
  : option (list N * N * string) :=
  match s with
  | String c _ =>
      if isdigit c then
        let '(val, rest) := strtoul s in
        if (0xffffffff <? val)%N then None
        else
          match rest with
          | String "." rest' =>
              match room with
              | O => None
              | S room' =>
                  if (0xff <? val)%N then None
                  else aton_loop room' (parts ++ [val]) rest'
              end
          | _ => Some (parts, val, rest)
          end
      else None
  | EmptyString => None
  end.

(** The largest last part allowed after [n] single-byte parts. *)
Definition aton_max (n : nat) : N :=
  match n with
  | 0%nat => 0xffffffff
  | 1%nat => 0xffffff
  | 2%nat => 0xffff
  | _ => 0xff
  end%N.

(** The low [n] bytes of [v], most significant first. *)
Fixpoint be_bytes (n : nat) (v : N) : bytes :=
  match n with
  | O => []
  | S n' => byte_of_Z (Z.shiftr (Z.of_N v) (8 * Z.of_nat n')) :: be_bytes n' v
  end.

Fixpoint has_nul (s : string) : bool :=
  match s with
  | String c s' => (N_of_ascii c =? 0)%N || has_nul s'
  | EmptyString => false
  end.

(** [socket.inet_aton]: [ValueError] on an embedded null character,
    [OSError] on an illegal address string. *)
Definition inet_aton (s : string) : result bytes :=
  if has_nul s then Raise ValueError
  else
    match aton_loop 3 [] s with
    | Some (parts, val, rest) =>
        let trailing_ok :=
          match rest with
          | EmptyString => true
          | String c _ => isspace c
          end in
        if trailing_ok && (val <=? aton_max (List.length parts))%N
        then Ok (map (fun p => byte_of_Z (Z.of_N p)) parts
                   ++ be_bytes (4 - List.length parts) val)
        else Raise OSError
    | None => Raise OSError
    end.

(** ["%d"] of an unsigned number. *)
Definition decimal (n : N) : string := NilZero.string_of_uint (N.to_uint n).

(** ["%d.%d.%d.%d"] of four bytes. *)
Definition dotted_quad (a b c d : byte) : string :=
  (decimal (Byte.to_N a) ++ "." ++ decimal (Byte.to_N b) ++ "."
   ++ decimal (Byte.to_N c) ++ "." ++ decimal (Byte.to_N d))%string.

(** [socket.inet_ntoa]: [OSError] unless given exactly four bytes. *)
Definition inet_ntoa (packed : bytes) : result string :=
  match packed with
  | [a; b; c; d] => Ok (dotted_quad a b c d)
  | _ => Raise OSError
  end.

(** ** The codec *)

(** Message types. *)
Definition SEND : Z := 0.
Definition ACK : Z := 1.
Definition REQ : Z := 2.
Definition MSG : Z := 3.

(** An address as the code passes it around: a string or [None]. *)
Definition addr := option string.

Definition addr_bytes (a : addr) : result bytes :=
  match a with
  | Some s => inet_aton s
  | None => Ok zero_addr
  end.

Definition pack_message (command : Z) (src_addr dest_addr : addr)
    (payload : bytes) : result bytes :=
  src_addr_bytes <- addr_bytes src_addr ;;
  dest_addr_bytes <- addr_bytes dest_addr ;;
  header <- IPCMessage_pack command src_addr_bytes dest_addr_bytes ;;
  Ok (header ++ payload).

Definition addr_of_bytes (b : bytes) : result addr :=
  if bytes_eqb b zero_addr then Ok None
  else s <- inet_ntoa b ;; Ok (Some s).

Definition unpack_message (message : bytes)
  : result (Z * addr * addr * bytes) :=
  '(command, src_addr_bytes, dest_addr_bytes) <-
    IPCMessage_unpack (firstn IPCMessage_size message) ;;
  src_addr <- addr_of_bytes src_addr_bytes ;;
  dest_addr <- addr_of_bytes dest_addr_bytes ;;
  let payload := skipn IPCMessage_size message in
  Ok (command, src_addr, dest_addr, payload).

(** ** Stateful code

    A call runs on a state it may change, and the changes made before an
    exception stay made. *)

Definition prog (S A : Type) : Type := S -> result A * S.

Definition ret {S A} (a : A) : prog S A := fun s => (Ok a, s).

Definition raise {S A} (e : exn) : prog S A := fun s => (Raise e, s).

Definition lift {S A} (r : result A) : prog S A := fun s => (r, s).

Definition bind {S A B} (m : prog S A) (f : A -> prog S B) : prog S B :=
  fun s =>
    match m s with
    | (Ok a, s') => f a s'
    | (Raise e, s') => (Raise e, s')
    | (Blocks, s') => (Blocks, s')
    end.

Declare Scope prog_scope.
Delimit Scope prog_scope with prog.
Notation "x <- m ;; k" := (bind m (fun x => k))
  (at level 61, m at next level, right associativity) : prog_scope.
Notation "' pat <- m ;; k" :=
  (bind m (fun x => match x with pat => k end))
  (at level 61, pat pattern, m at next level, right associativity)
  : prog_scope.
Notation "m ;; k" := (bind m (fun _ => k))
  (at level 61, right associativity) : prog_scope.

(** A statement either leaves the function with a value ([return]) or lets
    control go on to the next statement. *)
Inductive flow (R : Type) : Type :=
| Returned (r : R)
| Next.
Arguments Returned {R} r.
Arguments Next {R}.

(** [s1] followed by [s2]: [s2] runs only when [s1] neither returned nor
    raised. *)
Definition then_ {S R} (s1 s2 : prog S (flow R)) : prog S (flow R) :=
  bind s1 (fun f => match f with
                    | Returned r => ret (Returned r)
                    | Next => s2
                    end).

(** A function body: falling off its end returns [None]. *)
Definition body {S R} (b : prog S (flow R)) : prog S (option R) :=
  bind b (fun f => match f with
                   | Returned r => ret (Some r)
                   | Next => ret None
                   end).

(** A function body whose [return]s carry no value: it returns [None]
    either way. *)
Definition procedure {S} (b : prog S (flow unit)) : prog S unit :=
  bind b (fun _ => ret tt).

(** ** Sockets

    A connected socket that is open accepts whatever is sent on it; [inbox]
    holds what the successive [recv] calls will return, and once it is used
    up the peer has closed and [recv] returns [b''].  [closed] records a
    call of [close()]; what the interpreter does with a socket nothing
    refers to any more is not part of the model. *)

Record socket : Type := mkSocket {
  peername : option string;
  closed : bool;
  sent : list bytes;
  inbox : list bytes
}.

(** [socket.socket()] *)
Definition new_socket : socket :=
  {| peername := None; closed := false; sent := []; inbox := [] |}.

Definition sock_getpeername : prog socket string :=
  fun s =>
    if closed s then (Raise OSError, s)
    else match peername s with
         | Some p => (Ok p, s)
         | None => (Raise OSError, s)
         end.

Definition sock_sendall (data : bytes) : prog socket unit :=
  fun s =>
    if closed s then (Raise OSError, s)
    else match peername s with
         | Some _ =>
             (Ok tt, {| peername := peername s; closed := closed s;
                        sent := sent s ++ [data]; inbox := inbox s |})
         | None => (Raise OSError, s)
         end.

(** [sock.recv(1024)] *)
Definition sock_recv : prog socket bytes :=
  fun s =>
    if closed s then (Raise OSError, s)
    else match inbox s with
         | chunk :: more =>
             (Ok chunk, {| peername := peername s; closed := closed s;
                           sent := sent s; inbox := more |})
         | [] => (Ok [], s)
         end.

Definition sock_close : prog socket unit :=
  fun s =>
    (Ok tt, {| peername := peername s; closed := true;
               sent := sent s; inbox := inbox s |}).

(** ** The mailbox: [queue.Queue()], unbounded *)

Definition entry : Type := addr * bytes.
Definition Queue : Type := list entry.

(** [Queue.put]: never blocks on an unbounded queue. *)
Definition Queue_put (q : Queue) (e : entry) : Queue := q ++ [e].

Definition Queue_empty (q : Queue) : bool :=
  match q with
  | [] => true
  | _ :: _ => false
  end.

(** [Queue.get]: the head, or no answer at all on an empty queue. *)
Definition Queue_get (q : Queue) : option (entry * Queue) :=
  match q with
  | e :: q' => Some (e, q')
  | [] => None
  end.

(** ** The relay *)

(** What [handleInteraction] works on: the server's queue and the socket it
    is handed. *)
Record world : Type := mkWorld {
  queue : Queue;
  sock : socket
}.

Definition on_sock {A} (p : prog socket A) : prog world A :=
  fun w =>
    let '(r, s') := p (sock w) in
    (r, {| queue := queue w; sock := s' |}).

Definition queue_put (e : entry) : prog world unit :=
  fun w => (Ok tt, {| queue := Queue_put (queue w) e; sock := sock w |}).

Definition queue_empty : prog world bool :=
  fun w => (Ok (Queue_empty (queue w)), w).

Definition queue_get : prog world entry :=
  fun w =>
    match Queue_get (queue w) with
    | Some (e, q') => (Ok e, {| queue := q'; sock := sock w |})
    | None => (Blocks, w)
    end.

Local Open Scope prog_scope.

Section Relay.

(** [this_ip = socket.gethostbyname(socket.gethostname())] *)
Variable this_ip : string.

Definition handleInteraction (message : bytes) : prog world unit :=
  (* the debug line formats sock.getpeername()[0] *)
  _ <- on_sock sock_getpeername ;;
  '(command, src_addr, dest_addr, payload) <- lift (unpack_message message) ;;
  if command =? SEND then
    queue_put (src_addr, payload) ;;
    reply_message <- lift (pack_message ACK src_addr dest_addr []) ;;
    on_sock (sock_sendall reply_message)
  else if command =? REQ then
    is_empty <- queue_empty ;;
    if negb is_empty then
      '(src_addr, payload) <- queue_get ;;
      message <- lift (pack_message MSG src_addr (Some this_ip) payload) ;;
      on_sock (sock_sendall message)
    else
      message <- lift (pack_message MSG None None []) ;;
      on_sock (sock_sendall message)
  else ret tt.

(** ** The client driver *)

(** What the network does to one call: whether [connect] succeeds, whether
    [select] finds the socket readable within its three seconds, and what
    the peer then delivers. *)
Record network : Type := mkNetwork {
  connect_ok : bool;
  readable : bool;
  incoming : list bytes
}.

(** [sock.connect((host, SERVER_PORT))] *)
Definition sock_connect (net : network) (host : string) : prog socket unit :=
  fun s =>
    if closed s then (Raise OSError, s)
    else if connect_ok net then
      (Ok tt, {| peername := Some host; closed := closed s;
                 sent := sent s; inbox := incoming net |})
    else (Raise OSError, s).

(** [try: ... except Exception as e: raise ConnectionError(...)] *)
Definition except_ConnectionError {S A} (p : prog S A) : prog S A :=
  fun s =>
    match p s with
    | (Raise _, s') => (Raise ConnectionError, s')
    | other => other
    end.

(** [select.select([sock], [], [], 3)], then the test of [ready[0]]. *)
Definition select_ready (net : network) : prog socket bool :=
  fun s => if closed s then (Raise ValueError, s) else (Ok (readable net), s).

Definition send_body (net : network) (dest_addr : string) (payload : bytes)
  : prog socket (flow unit) :=
  except_ConnectionError
    (sock_connect net dest_addr ;;
     (* the debug line formats sock.getpeername()[0] *)
     _ <- sock_getpeername ;; ret tt) ;;
  message <- lift (pack_message SEND (Some this_ip) (Some dest_addr) payload) ;;
  sock_sendall message ;;
  ready <- select_ready net ;;
  then_
    (if ready then
       data <- sock_recv ;;
       '(command, src_addr, dest_addr, payload) <- lift (unpack_message data) ;;
       if command =? ACK then ret (Returned tt)
       else raise AckTimeout
     else raise AckTimeout)
    (sock_close ;; ret Next).

(** [send(dest_addr, payload)], run on the socket it creates; the second
    component is that socket as the call leaves it. *)
Definition send (dest_addr : string) (payload : bytes) (net : network)
  : result unit * socket :=
  procedure (send_body net dest_addr payload) new_socket.

(** [while True: chunk = sock.recv(1024); if not chunk: break;
    data += chunk] over the chunks still to come: what has been gathered
    when the loop breaks, and the chunks left unread. *)
Fixpoint drain_inbox (pending : list bytes) (data : bytes)
  : bytes * list bytes :=
  match pending with
  | [] => (data, [])
  | chunk :: more =>
      match chunk with
      | [] => (data, more)
      | _ :: _ => drain_inbox more (data ++ chunk)
      end
  end.

Definition recv_loop (data : bytes) : prog socket bytes :=
  fun s =>
    if closed s then (Raise OSError, s)
    else
      let '(data', rest) := drain_inbox (inbox s) data in
      (Ok data', {| peername := peername s; closed := closed s;
                    sent := sent s; inbox := rest |}).

Definition is_None {A} (o : option A) : bool :=
  match o with
  | None => true
  | Some _ => false
  end.

Definition receive_body (net : network)
  : prog socket (flow (addr * option bytes)) :=
  except_ConnectionError
    (sock_connect net this_ip ;;
     (* the debug line formats sock.getpeername()[0] *)
     _ <- sock_getpeername ;; ret tt) ;;
  message <- lift (pack_message REQ (Some this_ip) None []) ;;
  sock_sendall message ;;
  ready <- select_ready net ;;
  then_
    (if ready then
       data <- recv_loop [] ;;
       '(command, src_addr, dest_addr, payload) <- lift (unpack_message data) ;;
       if command =? MSG then
         if bytes_eqb payload [] && is_None src_addr then
           sock_close ;; ret (Returned (None, None))
         else
           sock_close ;; ret (Returned (src_addr, Some payload))
       else
         sock_close ;; raise ReceiveError
     else
       sock_close ;; raise ReceiveError)
    (sock_close ;; ret Next).

(** [receive()], run on the socket it creates; the second component is
    that socket as the call leaves it. *)
Definition receive (net : network)
  : result (option (addr * option bytes)) * socket :=
  body (receive_body net) new_socket.

End Relay.

(** ** Names the properties use *)

(** The relay's way of taking from the mailbox,
    [if not self.queue.empty(): ... = self.queue.get()]: the head entry and
    the rest, or nothing and the queue as it was. *)
Definition try_dequeue (q : Queue) : option entry * Queue :=
  if negb (Queue_empty q) then
    match Queue_get q with
    | Some (e, q') => (Some e, q')
    | None => (None, q)
    end
  else (None, q).

(** [n] dequeues in a row: what each one gave, and the queue left. *)
Fixpoint dequeue_n (n : nat) (q : Queue) : list (option entry) * Queue :=
  match n with
  | O => ([], q)
  | S n' =>
      let '(e, q') := try_dequeue q in
      let '(es, q'') := dequeue_n n' q' in
      (e :: es, q'')
  end.

(** Handling the messages of a list one after the other, on the same
    socket. *)
Fixpoint handleInteractions (this_ip : string) (messages : list bytes)
  : prog world unit :=
  match messages with
  | [] => ret tt
  | m :: ms => handleInteraction this_ip m ;; handleInteractions this_ip ms
  end.

(** An address in the form [unpack_message] gives it: absent, or the dotted
    quad (four decimal numbers, no leading zeros) of four bytes that are not
    all zero. *)
Definition canonical_addr (a : addr) : Prop :=
  match a with
  | None => True
  | Some s =>
      exists b0 b1 b2 b3,
        [b0; b1; b2; b3] <> zero_addr /\ s = dotted_quad b0 b1 b2 b3
  end.

(** Every source address in the mailbox is one [unpack_message] can give. *)
Definition mailbox_wf (q : Queue) : Prop :=
  Forall (fun e : entry => canonical_addr (fst e)) q.

(** A socket [handleInteraction] can answer on. *)
Definition connected (s : socket) : Prop :=
  closed s = false /\ peername s <> None.

(** The bytes of [MSG(None, None, b'')], the reply to a [REQ] when nothing
    is stored. *)
Definition nothing_available : bytes :=
  [x00; x00; x00; x03; x00; x00; x00; x00; x00; x00; x00; x00].

(** The socket after [sendall(data)] went through. *)
Definition sock_send (s : socket) (data : bytes) : socket :=
  {| peername := peername s; closed := closed s;
     sent := sent s ++ [data]; inbox := inbox s |}.

(** ** Data of the scenarios *)

(** [b"hello"] *)
Definition hello : bytes := [x68; x65; x6c; x6c; x6f].

Definition addr_A : string := "10.0.0.1".
Definition relay_ip : string := "10.0.0.2".

(** [SEND] from [addr_A] to [relay_ip] carrying [hello], on the wire. *)
Definition send_hello : bytes :=
  [x00; x00; x00; x00; x0a; x00; x00; x01; x0a; x00; x00; x02] ++ hello.

(** [REQ] from [addr_A] with no destination and no payload, on the wire. *)
Definition req_message : bytes :=
  [x00; x00; x00; x02; x0a; x00; x00; x01; x00; x00; x00; x00].

(** [ACK] from [addr_A] to [relay_ip], on the wire. *)
Definition ack_message : bytes :=
  [x00; x00; x00; x01; x0a; x00; x00; x01; x0a; x00; x00; x02].

(** The relay's end of a connection from [addr_A], nothing sent yet. *)
Definition accepted_sock : socket :=
  {| peername := Some addr_A; closed := false; sent := []; inbox := [] |}.

(** A network on which the peer answers with the one chunk [reply] and
    closes. *)
Definition answering (reply : bytes) : network :=
  {| connect_ok := true; readable := true; incoming := [reply] |}.

(** ** [short] *)

(** [str.encode()] of a string of ASCII characters. *)
Definition encode (s : string) : bytes := list_byte_of_string s.

(** [str(n).encode()] *)
Definition str_len (payload : bytes) : bytes :=
  encode (decimal (N.of_nat (List.length payload))).

Definition short (payload : bytes) : bytes :=
  if (10 <? List.length payload)%nat then
    firstn 10 payload ++ encode "..." ++ encode " (" ++ str_len payload
      ++ encode " bytes)"
  else
    payload ++ encode " (" ++ str_len payload ++ encode " bytes)".

(** ** The event loop

    The loop adds to the exceptions of the code it calls the selector's
    [KeyError] and the [KeyboardInterrupt] that ends it. *)

Inductive loop_exn : Type :=
| Lib (e : exn)
| KeyError
| KeyboardInterrupt.

(** What a step of the loop does: it finishes, fails, or waits for ever
    ([select] with no timeout and nothing more to come). *)
Inductive outcome (A : Type) : Type :=
| Done (a : A)
| Failed (e : loop_exn)
| Waits.
Arguments Done {A} a.
Arguments Failed {A} e.
Arguments Waits {A}.

Definition task (S A : Type) : Type := S -> outcome A * S.

Definition tret {S A} (a : A) : task S A := fun s => (Done a, s).

Definition tbind {S A B} (m : task S A) (f : A -> task S B) : task S B :=
  fun s =>
    match m s with
    | (Done a, s') => f a s'
    | (Failed e, s') => (Failed e, s')
    | (Waits, s') => (Waits, s')
    end.

Definition outcome_of {A} (r : result A) : outcome A :=
  match r with
  | Ok a => Done a
  | Raise e => Failed (Lib e)
  | Blocks => Waits
  end.

Declare Scope task_scope.
Delimit Scope task_scope with task.
Notation "x <- m ;; k" := (tbind m (fun x => k))
  (at level 61, m at next level, right associativity) : task_scope.
Notation "m ;; k" := (tbind m (fun _ => k))
  (at level 61, right associativity) : task_scope.

(** [except Exception]: everything but [KeyboardInterrupt] is caught. *)
Definition except_Exception {S} (p : task S unit) : task S unit :=
  fun s =>
    match p s with
    | (Failed (Lib _), s') => (Done tt, s')
    | (Failed KeyError, s') => (Done tt, s')
    | other => other
    end.

(** [except OSError] *)
Definition except_OSError {S} (p : task S unit) : task S unit :=
  fun s =>
    match p s with
    | (Failed (Lib OSError), s') => (Done tt, s')
    | other => other
    end.

(** [selectors.EVENT_READ] and [selectors.EVENT_WRITE] *)
Definition EVENT_READ : Z := 1.
Definition EVENT_WRITE : Z := 2.

(** The truth value of an integer, and of a [bytes] object. *)
Definition truthy (z : Z) : bool := negb (z =? 0).

Definition nonempty (b : bytes) : bool :=
  match b with
  | [] => false
  | _ :: _ => true
  end.

(** What a selector key stands for: the accepted socket, the [outb]
    buffer of its [data], and whether the socket is registered. *)
Record connection : Type := mkConnection {
  conn_sock : socket;
  outb : bytes;
  registered : bool
}.

(** What servicing one connection works on: the server's queue and that
    connection. *)
Record service : Type := mkService {
  mailbox : Queue;
  conn : connection
}.

Definition on_conn_sock {A} (p : prog socket A) : task service A :=
  fun st =>
    let '(r, s') := p (conn_sock (conn st)) in
    (outcome_of r,
     {| mailbox := mailbox st;
        conn := {| conn_sock := s'; outb := outb (conn st);
                   registered := registered (conn st) |} |}).

(** [data.outb += recv_data] *)
Definition append_outb (recv_data : bytes) : task service unit :=
  fun st =>
    (Done tt,
     {| mailbox := mailbox st;
        conn := {| conn_sock := conn_sock (conn st);
                   outb := outb (conn st) ++ recv_data;
                   registered := registered (conn st) |} |}).

Definition get_outb : task service bytes :=
  fun st => (Done (outb (conn st)), st).

(** [self.sel.unregister(sock)]: a socket that is not registered gives
    [KeyError], or [ValueError] when it is closed as well. *)
Definition sel_unregister : task service unit :=
  fun st =>
    if registered (conn st) then
      (Done tt,
       {| mailbox := mailbox st;
          conn := {| conn_sock := conn_sock (conn st);
                     outb := outb (conn st);
                     registered := false |} |})
    else if closed (conn_sock (conn st)) then (Failed (Lib ValueError), st)
    else (Failed KeyError, st).

(** A call of [handleInteraction] on the connection's socket. *)
Definition on_world {A} (p : prog world A) : task service A :=
  fun st =>
    let '(r, w') := p {| queue := mailbox st; sock := conn_sock (conn st) |} in
    (outcome_of r,
     {| mailbox := queue w';
        conn := {| conn_sock := sock w'; outb := outb (conn st);
                   registered := registered (conn st) |} |}).

Definition unregister_and_close : task service unit :=
  (except_Exception sel_unregister ;;
   except_OSError (on_conn_sock sock_close))%task.

Definition service_connection (this_ip : string) (mask : Z)
  : task service unit :=
  ((if truthy (Z.land mask EVENT_READ) then
      recv_data <- on_conn_sock sock_recv ;;
      if nonempty recv_data then append_outb recv_data
      else sel_unregister ;; on_conn_sock sock_close
    else tret tt) ;;
   if truthy (Z.land mask EVENT_WRITE) then
     buffered <- get_outb ;;
     if nonempty buffered then
       on_world (handleInteraction this_ip buffered) ;;
       unregister_and_close
     else tret tt
   else tret tt)%task.

(** The server: its queue, the connections accepted so far (a key is a
    position in the list) and whether the selector has been closed. *)
Record server : Type := mkServer {
  srv_queue : Queue;
  conns : list connection;
  sel_closed : bool
}.

(** [Server(host, port)] *)
Definition Server_init : server :=
  {| srv_queue := []; conns := []; sel_closed := false |}.

(** What [select] reports: a connection waiting on the listening socket,
    with the peer's address and what the peer will deliver, or an accepted
    connection ready under [mask]. *)
Inductive event : Type :=
| Incoming (peer : string) (chunks : list bytes)
| Ready (key : nat) (mask : Z).

(** [accept_wrapper]: the accepted socket is registered with an empty
    buffer. *)
Definition accept_wrapper (peer : string) (chunks : list bytes)
  : task server unit :=
  fun srv =>
    (Done tt,
     {| srv_queue := srv_queue srv;
        conns := conns srv
                 ++ [{| conn_sock := {| peername := Some peer;
                                        closed := false; sent := [];
                                        inbox := chunks |};
                        outb := []; registered := true |}];
        sel_closed := sel_closed srv |}).

Fixpoint set_nth {A} (n : nat) (x : A) (l : list A) : list A :=
  match l, n with
  | [], _ => []
  | _ :: l', O => x :: l'
  | y :: l', S n' => y :: set_nth n' x l'
  end.

(** [service_connection(key, mask)] on the connection [key] stands for;
    [select] reports no key that was never handed out. *)
Definition service_key (this_ip : string) (key : nat) (mask : Z)
  : task server unit :=
  fun srv =>
    match nth_error (conns srv) key with
    | Some c =>
        let '(r, st) :=
          service_connection this_ip mask
            {| mailbox := srv_queue srv; conn := c |} in
        (r, {| srv_queue := mailbox st;
               conns := set_nth key (conn st) (conns srv);
               sel_closed := sel_closed srv |})
    | None => (Done tt, srv)
    end.

(** [for key, mask in events: ...] *)
Fixpoint for_events (this_ip : string) (events : list event)
  : task server unit :=
  match events with
  | [] => tret tt
  | Incoming peer chunks :: more =>
      (accept_wrapper peer chunks ;; for_events this_ip more)%task
  | Ready key mask :: more =>
      (service_key this_ip key mask ;; for_events this_ip more)%task
  end.

(** What one call of [select(timeout=None)] comes back with: events, or
    the [KeyboardInterrupt] of the operator. *)
Inductive wakeup : Type :=
| Selected (events : list event)
| Interrupted.

(** [while True: events = self.sel.select(timeout=None); for ...]; when
    nothing more is to come, [select] waits. *)
Fixpoint event_loop (this_ip : string) (wakeups : list wakeup)
  : task server unit :=
  match wakeups with
  | [] => fun srv => (Waits, srv)
  | Selected events :: more =>
      (for_events this_ip events ;; event_loop this_ip more)%task
  | Interrupted :: _ => fun srv => (Failed KeyboardInterrupt, srv)
  end.

(** [except KeyboardInterrupt] *)
Definition except_KeyboardInterrupt {S} (p : task S unit) : task S unit :=
  fun s =>
    match p s with
    | (Failed KeyboardInterrupt, s') => (Done tt, s')
    | other => other
    end.

(** [finally: self.sel.close()], reached when the [try] block is left. *)
Definition finally_close (p : task server unit) : task server unit :=
  fun srv =>
    match p srv with
    | (Waits, srv') => (Waits, srv')
    | (r, srv') =>
        (r, {| srv_queue := srv_queue srv'; conns := conns srv';
               sel_closed := true |})
    end.

(** [Server.run], once the listening socket is bound and registered
    ([listening] tells whether that went through; a failure there is the
    [OSError] of [bind], raised before the [try]). *)
Definition run (this_ip : string) (listening : bool)
    (wakeups : list wakeup) : task server unit :=
  if listening then
    finally_close (except_KeyboardInterrupt (event_loop this_ip wakeups))
  else fun srv => (Failed (Lib OSError), srv).

(** ** More data for the scenarios *)

(** [MSG] from [addr_A] through [relay_ip] carrying [hello], on the
    wire. *)
Definition msg_hello : bytes :=
  [x00; x00; x00; x03; x0a; x00; x00; x01; x0a; x00; x00; x02] ++ hello.

(** A [REQ] from another client, with a destination and a payload. *)
Definition req_other : bytes :=
  [x00; x00; x00; x02; x0a; x00; x00; x03; x0a; x00; x00; x02] ++ hello.

(** Networks: one on which nothing comes back in time, one on which the
    connection is refused, and one that delivers the chunks given and
    closes. *)
Definition silent : network :=
  {| connect_ok := true; readable := false; incoming := [] |}.

Definition refusing : network :=
  {| connect_ok := false; readable := false; incoming := [] |}.

Definition delivering (chunks : list bytes) : network :=
  {| connect_ok := true; readable := true; incoming := chunks |}.

(** The relay's end of a connection from [addr_A] on which [chunks] are
    still to come. *)
Definition pending_sock (chunks : list bytes) : socket :=
  {| peername := Some addr_A; closed := false; sent := [];
     inbox := chunks |}.

(** That connection as [accept_wrapper] registers it. *)
Definition accepted (chunks : list bytes) : connection :=
  {| conn_sock := pending_sock chunks; outb := []; registered := true |}.

(** Ready for reading and writing. *)
Definition READ_WRITE : Z := Z.lor EVENT_READ EVENT_WRITE.

(** A task keeps a property of the state, however it ends. *)
Definition keeps {S A} (P : S -> Prop) (t : task S A) : Prop :=
  forall s, P s -> P (snd (t s)).

(** A task never ends in [KeyboardInterrupt]. *)
Definition uninterrupted {S A} (t : task S A) : Prop :=
  forall s, fst (t s) <> Failed KeyboardInterrupt.

(** * Properties *)

(** ** Bytes and words *)

Section Words.

Lemma land_255_range (z : Z) : 0 <= Z.land z 255 < 256.
Proof.
  change 255 with (Z.ones 8).
  rewrite Z.land_ones by lia.
  apply Z.mod_pos_bound; lia.
Qed.

Lemma Z_of_byte_of_Z (z : Z) : Z_of_byte (byte_of_Z z) = Z.land z 255.
Proof.
  unfold Z_of_byte, byte_of_Z.
  pose proof (land_255_range z) as Hr.
  pose proof (Byte.to_of_N_option_map (Z.to_N (Z.land z 255))) as Hm.
  destruct (Byte.of_N (Z.to_N (Z.land z 255))) as [b|] eqn:Hb; simpl in Hm.
  - destruct (N.leb_spec (Z.to_N (Z.land z 255)) 255) as [_|Hgt].
    + injection Hm as ->. apply Z2N.id. lia.
    + lia.
  - destruct (N.leb_spec (Z.to_N (Z.land z 255)) 255) as [Hle|Hgt].
    + discriminate.
    + lia.
Qed.

Lemma byte_of_Z_of_byte (b : byte) : byte_of_Z (Z_of_byte b) = b.
Proof. destruct b; reflexivity. Qed.

(** The bits of one byte put back in its place in the word. *)
Lemma byte_slot_bit (c k n : Z) :
  0 <= k -> 0 <= n ->
  Z.testbit (Z.shiftl (Z.land (Z.shiftr c k) 255) k) n
  = Z.testbit c n && ((k <=? n) && (n <? k + 8)).
Proof.
  intros Hk Hn.
  rewrite Z.shiftl_spec by lia.
  destruct (Z.leb_spec k n) as [Hle|Hlt].
  - rewrite Z.land_spec, Z.shiftr_spec by lia.
    replace (n - k + k) with n by lia.
    change 255 with (Z.ones 8).
    rewrite Z.testbit_ones by lia.
    destruct (Z.leb_spec 0 (n - k)), (Z.ltb_spec (n - k) 8),
      (Z.ltb_spec n (k + 8)); try lia; reflexivity.
  - rewrite Z.testbit_neg_r by lia.
    now rewrite andb_false_r.
Qed.

(** ['!I'] packed then unpacked is the number packed. *)
Lemma be_to_u32_to_be (c : Z) :
  0 <= c < 2 ^ 32 ->
  match u32_to_be c with
  | [b0; b1; b2; b3] => be_to_u32 b0 b1 b2 b3 = c
  | _ => False
  end.
Proof.
  intros Hc. unfold u32_to_be, be_to_u32.
  rewrite !Z_of_byte_of_Z.
  apply Z.bits_inj'. intros n Hn.
  rewrite <- (Z.shiftl_0_r (Z.land c 255)).
  rewrite <- (Z.shiftr_0_r c) at 4.
  rewrite !Z.lor_spec, !byte_slot_bit by lia.
  destruct (Z.testbit c n) eqn:Hbit; simpl; [|reflexivity].
  assert (n < 32).
  { destruct (Z_lt_dec n 32) as [|Hge]; [assumption|].
    rewrite <- (Z.mod_small c (2 ^ 32)) in Hbit by lia.
    rewrite Z.mod_pow2_bits_high in Hbit by lia. discriminate. }
  destruct (Z.leb_spec 24 n), (Z.ltb_spec n (24 + 8)),
    (Z.leb_spec 16 n), (Z.ltb_spec n (16 + 8)),
    (Z.leb_spec 8 n), (Z.ltb_spec n (8 + 8)),
    (Z.leb_spec 0 n), (Z.ltb_spec n (0 + 8)); simpl; try reflexivity; lia.
Qed.

End Words.

(** ** Dotted quads *)

Section Addresses.

Lemma has_nul_append (s t : string) :
  has_nul (s ++ t)%string = has_nul s || has_nul t.
Proof.
  induction s as [|c s IH]; simpl; [reflexivity|].
  rewrite IH. apply orb_assoc.
Qed.

Lemma has_nul_decimal (b : byte) : has_nul (decimal (Byte.to_N b)) = false.
Proof. destruct b; reflexivity. Qed.

Lemma has_nul_dotted_quad (a b c d : byte) :
  has_nul (dotted_quad a b c d) = false.
Proof.
  unfold dotted_quad.
  rewrite !has_nul_append, !has_nul_decimal. reflexivity.
Qed.

(** A byte's decimal followed by a dot is one part of the address. *)
Lemma aton_loop_part (room : nat) (parts : list N) (b : byte) (r : string) :
  aton_loop (S room) parts (decimal (Byte.to_N b) ++ String "." r)%string
  = aton_loop room (parts ++ [Byte.to_N b]) r.
Proof. destruct b; reflexivity. Qed.

(** A byte's decimal at the end of the string is the last part. *)
Lemma aton_loop_last (parts : list N) (b : byte) :
  aton_loop 0 parts (decimal (Byte.to_N b)) = Some (parts, Byte.to_N b, ""%string).
Proof. destruct b; reflexivity. Qed.

Lemma aton_loop_dotted_quad (a b c d : byte) :
  aton_loop 3 [] (dotted_quad a b c d)
  = Some ([Byte.to_N a; Byte.to_N b; Byte.to_N c], Byte.to_N d, ""%string).
Proof.
  unfold dotted_quad.
  assert (Hdot : forall x, ("." ++ x)%string = String "." x) by reflexivity.
  rewrite !Hdot, !aton_loop_part. simpl app.
  apply aton_loop_last.
Qed.

(** [inet_aton] reads back what [inet_ntoa] printed. *)
Lemma inet_aton_dotted_quad (a b c d : byte) :
  inet_aton (dotted_quad a b c d) = Ok [a; b; c; d].
Proof.
  unfold inet_aton.
  rewrite has_nul_dotted_quad, aton_loop_dotted_quad.
  cbn [List.length aton_max andb].
  pose proof (Byte.to_N_bounded d) as Hd.
  destruct (N.leb_spec (Byte.to_N d) 255) as [_|Hgt]; [|lia].
  cbn [map Nat.sub be_bytes app Z.of_nat Z.mul].
  rewrite Z.shiftr_0_r.
  fold (Z_of_byte a) (Z_of_byte b) (Z_of_byte c) (Z_of_byte d).
  now rewrite !byte_of_Z_of_byte.
Qed.

Lemma bytes_eqb_eq (a b : bytes) : bytes_eqb a b = true <-> a = b.
Proof.
  unfold bytes_eqb.
  destruct (list_eq_dec Byte.byte_eq_dec a b); split; congruence.
Qed.

Lemma bytes_eqb_neq (a b : bytes) : bytes_eqb a b = false <-> a <> b.
Proof.
  unfold bytes_eqb.
  destruct (list_eq_dec Byte.byte_eq_dec a b); split; congruence.
Qed.

(** The bytes [pack_message] writes for a canonical address decode to the
    same address. *)
Lemma canonical_addr_bytes (a : addr) :
  canonical_addr a ->
  exists b0 b1 b2 b3,
    addr_bytes a = Ok [b0; b1; b2; b3]
    /\ addr_of_bytes [b0; b1; b2; b3] = Ok a.
Proof.
  destruct a as [s|]; simpl.
  - intros (b0 & b1 & b2 & b3 & Hnz & ->).
    exists b0, b1, b2, b3. split.
    + apply inet_aton_dotted_quad.
    + unfold addr_of_bytes.
      apply bytes_eqb_neq in Hnz. rewrite Hnz. reflexivity.
  - intros _. exists x00, x00, x00, x00. split; reflexivity.
Qed.

(** What [addr_of_bytes] gives for four bytes is a canonical address. *)
Lemma addr_of_bytes_canonical (b0 b1 b2 b3 : byte) :
  exists a, addr_of_bytes [b0; b1; b2; b3] = Ok a /\ canonical_addr a.
Proof.
  unfold addr_of_bytes.
  destruct (bytes_eqb [b0; b1; b2; b3] zero_addr) eqn:Hz.
  - exists None. split; [reflexivity|exact I].
  - exists (Some (dotted_quad b0 b1 b2 b3)). split; [reflexivity|].
    simpl. exists b0, b1, b2, b3. split; [|reflexivity].
    now apply bytes_eqb_neq.
Qed.

End Addresses.

(** ** The codec *)

Section Codec.

(** [unpack_message] on a buffer of twelve bytes or more. *)
Lemma unpack_message_header (c0 c1 c2 c3 s0 s1 s2 s3 d0 d1 d2 d3 : byte)
    (payload : bytes) :
  unpack_message
    (c0 :: c1 :: c2 :: c3 :: s0 :: s1 :: s2 :: s3
        :: d0 :: d1 :: d2 :: d3 :: payload)
  = (src_addr <- addr_of_bytes [s0; s1; s2; s3] ;;
     dest_addr <- addr_of_bytes [d0; d1; d2; d3] ;;
     Ok (be_to_u32 c0 c1 c2 c3, src_addr, dest_addr, payload))%result.
Proof. reflexivity. Qed.

(** [unpack_message] on a shorter buffer. *)
Lemma unpack_message_short (message : bytes) :
  (List.length message < 12)%nat ->
  unpack_message message = Raise StructError.
Proof.
  intros Hlen.
  do 12 (destruct message as [|? message]; [reflexivity|]).
  simpl in Hlen. lia.
Qed.

(** A buffer of twelve bytes or more is a header and a payload. *)
Lemma header_split (message : bytes) :
  (12 <= List.length message)%nat ->
  exists c0 c1 c2 c3 s0 s1 s2 s3 d0 d1 d2 d3,
    message = c0 :: c1 :: c2 :: c3 :: s0 :: s1 :: s2 :: s3
                 :: d0 :: d1 :: d2 :: d3 :: skipn 12 message.
Proof.
  intros Hlen.
  do 12 (destruct message as [|? message]; [simpl in Hlen; lia|]).
  repeat eexists.
Qed.

(** What a successful [unpack_message] says about its argument. *)
Lemma unpack_message_inv (message : bytes) (command : Z) (src dest : addr)
    (payload : bytes) :
  unpack_message message = Ok (command, src, dest, payload) ->
  exists c0 c1 c2 c3 s0 s1 s2 s3 d0 d1 d2 d3,
    message = c0 :: c1 :: c2 :: c3 :: s0 :: s1 :: s2 :: s3
                 :: d0 :: d1 :: d2 :: d3 :: payload
    /\ command = be_to_u32 c0 c1 c2 c3
    /\ addr_of_bytes [s0; s1; s2; s3] = Ok src
    /\ addr_of_bytes [d0; d1; d2; d3] = Ok dest.
Proof.
  intros Hun.
  destruct (Nat.lt_ge_cases (List.length message) 12) as [Hlt|Hge].
  - rewrite unpack_message_short in Hun by assumption. discriminate.
  - destruct (header_split message Hge)
      as (c0 & c1 & c2 & c3 & s0 & s1 & s2 & s3 & d0 & d1 & d2 & d3 & Hm).
    rewrite Hm, unpack_message_header in Hun.
    destruct (addr_of_bytes_canonical s0 s1 s2 s3) as (a & Ha & _).
    destruct (addr_of_bytes_canonical d0 d1 d2 d3) as (b & Hb & _).
    rewrite Ha, Hb in Hun. cbn [rbind] in Hun.
    injection Hun as <- <- <- Hp.
    exists c0, c1, c2, c3, s0, s1, s2, s3, d0, d1, d2, d3.
    rewrite <- Hp. auto.
Qed.

(** The addresses [unpack_message] gives are canonical. *)
Lemma unpack_message_canonical (message : bytes) (command : Z)
    (src dest : addr) (payload : bytes) :
  unpack_message message = Ok (command, src, dest, payload) ->
  canonical_addr src /\ canonical_addr dest.
Proof.
  intros Hun.
  destruct (unpack_message_inv _ _ _ _ _ Hun)
    as (c0 & c1 & c2 & c3 & s0 & s1 & s2 & s3 & d0 & d1 & d2 & d3
        & _ & _ & Hs & Hd).
  destruct (addr_of_bytes_canonical s0 s1 s2 s3) as (a & Ha & Hca).
  destruct (addr_of_bytes_canonical d0 d1 d2 d3) as (b & Hb & Hcb).
  split; congruence.
Qed.

(** [pack_message] on canonical addresses: the header it writes. *)
Lemma pack_message_canonical (command : Z) (src dest : addr)
    (payload : bytes) :
  0 <= command < 2 ^ 32 ->
  canonical_addr src -> canonical_addr dest ->
  exists c0 c1 c2 c3 s0 s1 s2 s3 d0 d1 d2 d3,
    pack_message command src dest payload
    = Ok (c0 :: c1 :: c2 :: c3 :: s0 :: s1 :: s2 :: s3
             :: d0 :: d1 :: d2 :: d3 :: payload)
    /\ be_to_u32 c0 c1 c2 c3 = command
    /\ addr_of_bytes [s0; s1; s2; s3] = Ok src
    /\ addr_of_bytes [d0; d1; d2; d3] = Ok dest.
Proof.
  intros Hc Hs Hd.
  destruct (canonical_addr_bytes src Hs) as (s0 & s1 & s2 & s3 & Hsb & Hsa).
  destruct (canonical_addr_bytes dest Hd) as (d0 & d1 & d2 & d3 & Hdb & Hda).
  pose proof (be_to_u32_to_be command Hc) as Hbe.
  unfold u32_to_be in Hbe.
  exists (byte_of_Z (Z.shiftr command 24)), (byte_of_Z (Z.shiftr command 16)),
    (byte_of_Z (Z.shiftr command 8)), (byte_of_Z command),
    s0, s1, s2, s3, d0, d1, d2, d3.
  repeat split; try assumption.
  unfold pack_message. rewrite Hsb, Hdb. simpl rbind.
  unfold IPCMessage_pack.
  destruct (Z.leb_spec 0 command); [|lia].
  destruct (Z.ltb_spec command (2 ^ 32)); [|lia].
  reflexivity.
Qed.

(** C1, as amended.  For every command that fits the header's unsigned
    32-bit field (the four commands among them), source and destination
    each either absent or a canonical dotted-quad address other than
    0.0.0.0, and every payload, [pack_message] succeeds and
    [unpack_message] gives back the command, the two addresses and the
    payload.  An absent source and an absent destination each come back
    absent whatever the other address and the payload are. *)
Theorem pack_unpack_roundtrip (command : Z) (src dest : addr)
    (payload : bytes) :
  0 <= command < 2 ^ 32 ->
  canonical_addr src -> canonical_addr dest ->
  exists message,
    pack_message command src dest payload = Ok message
    /\ unpack_message message = Ok (command, src, dest, payload).
Proof.
  intros Hc Hs Hd.
  destruct (pack_message_canonical command src dest payload Hc Hs Hd)
    as (c0 & c1 & c2 & c3 & s0 & s1 & s2 & s3 & d0 & d1 & d2 & d3
        & Hpack & Hcmd & Hsa & Hda).
  eexists. split; [exact Hpack|].
  rewrite unpack_message_header, Hsa, Hda, Hcmd. reflexivity.
Qed.

(** C8.  A buffer shorter than the twelve-byte header makes
    [unpack_message] raise [struct.error]; a buffer of twelve bytes or more
    is decoded, and the payload is everything after the twelfth byte. *)
Theorem unpack_message_undersized (message : bytes) :
  ((List.length message < 12)%nat ->
   unpack_message message = Raise StructError)
  /\ ((12 <= List.length message)%nat ->
      exists command src dest,
        unpack_message message
        = Ok (command, src, dest, skipn 12 message)).
Proof.
  split.
  - apply unpack_message_short.
  - intros Hge.
    destruct (header_split message Hge)
      as (c0 & c1 & c2 & c3 & s0 & s1 & s2 & s3 & d0 & d1 & d2 & d3 & Hm).
    destruct (addr_of_bytes_canonical s0 s1 s2 s3) as (a & Ha & _).
    destruct (addr_of_bytes_canonical d0 d1 d2 d3) as (b & Hb & _).
    exists (be_to_u32 c0 c1 c2 c3), a, b.
    rewrite Hm at 1.
    rewrite unpack_message_header, Ha, Hb. reflexivity.
Qed.

End Codec.

(** ** The mailbox *)

Section Mailbox.

Lemma try_dequeue_cons (e : entry) (q : Queue) :
  try_dequeue (e :: q) = (Some e, q).
Proof. reflexivity. Qed.

Lemma try_dequeue_nil : try_dequeue [] = (None, []).
Proof. reflexivity. Qed.

(** Dequeuing as many times as the front part is long gives the front
    part, in its order. *)
Lemma dequeue_n_front (front back : Queue) :
  dequeue_n (List.length front) (front ++ back) = (map Some front, back).
Proof.
  induction front as [|e front IH]; cbn [List.length app dequeue_n map].
  - reflexivity.
  - rewrite try_dequeue_cons, IH. reflexivity.
Qed.

Lemma dequeue_n_plus (n m : nat) (q : Queue) :
  dequeue_n (n + m) q
  = let '(es, q') := dequeue_n n q in
    let '(es', q'') := dequeue_n m q' in
    (es ++ es', q'').
Proof.
  revert q. induction n as [|n IH]; intros q; cbn [Nat.add dequeue_n].
  - destruct (dequeue_n m q). reflexivity.
  - destruct (try_dequeue q) as [e q1].
    rewrite IH.
    destruct (dequeue_n n q1) as [es q2].
    destruct (dequeue_n m q2) as [es' q3]. reflexivity.
Qed.

(** C4, as amended.  After [enqueue(s1, p1)] then [enqueue(s2, p2)] on a
    mailbox, the dequeues first give the entries the mailbox already held,
    oldest first, and the next two give [(s1, p1)] then [(s2, p2)], after
    which the mailbox is empty; on an empty mailbox the two dequeues that
    follow the two enqueues give [(s1, p1)] then [(s2, p2)]. *)
Theorem mailbox_fifo (q : Queue) (s1 s2 : addr) (p1 p2 : bytes) :
  dequeue_n (List.length q + 2) (Queue_put (Queue_put q (s1, p1)) (s2, p2))
  = (map Some q ++ [Some (s1, p1); Some (s2, p2)], [])
  /\ dequeue_n 2 (Queue_put (Queue_put [] (s1, p1)) (s2, p2))
     = ([Some (s1, p1); Some (s2, p2)], []).
Proof.
  split; [|reflexivity].
  unfold Queue_put.
  rewrite <- app_assoc, dequeue_n_plus, dequeue_n_front.
  reflexivity.
Qed.

(** Counterexample to C4 as stated: on a mailbox that already holds an
    entry, the two dequeues after the two enqueues give that entry and
    [(s1, p1)], not [(s1, p1)] and [(s2, p2)]. *)
Lemma mailbox_fifo_nonempty_counterexample :
  let old : entry := (Some "10.0.0.9"%string, [x6f]) in
  let e1 : entry := (Some "10.0.0.1"%string, [x61]) in
  let e2 : entry := (Some "10.0.0.2"%string, [x62]) in
  dequeue_n 2 (Queue_put (Queue_put [old] e1) e2)
  = ([Some old; Some e1], [e2])
  /\ fst (dequeue_n 2 (Queue_put (Queue_put [old] e1) e2))
     <> [Some e1; Some e2].
Proof.
  split; [reflexivity|].
  simpl. intros H. discriminate H.
Qed.

Lemma dequeue_n_nil (n : nat) : dequeue_n n [] = (repeat None n, []).
Proof.
  induction n as [|n IH]; cbn [dequeue_n repeat].
  - reflexivity.
  - rewrite try_dequeue_nil, IH. reflexivity.
Qed.

End Mailbox.

(** ** The relay *)

Section RelayProperties.

Variable this_ip : string.

Lemma sendall_connected (q : Queue) (s : socket) (data : bytes) :
  connected s ->
  on_sock (sock_sendall data) {| queue := q; sock := s |}
  = (Ok tt, {| queue := q; sock := sock_send s data |}).
Proof.
  intros [Hopen Hpeer].
  unfold on_sock, sock_sendall, sock_send. simpl.
  rewrite Hopen.
  destruct (peername s); [reflexivity|congruence].
Qed.

(** On a connected socket [handleInteraction] gets to the test of the
    command it decoded. *)
Lemma handleInteraction_decoded (message : bytes) (command : Z)
    (src dest : addr) (payload : bytes) (q : Queue) (s : socket) :
  connected s ->
  unpack_message message = Ok (command, src, dest, payload) ->
  handleInteraction this_ip message {| queue := q; sock := s |}
  = (if command =? SEND then
       queue_put (src, payload) ;;
       reply_message <- lift (pack_message ACK src dest []) ;;
       on_sock (sock_sendall reply_message)
     else if command =? REQ then
       is_empty <- queue_empty ;;
       if negb is_empty then
         '(src_addr, payload) <- queue_get ;;
         message <- lift (pack_message MSG src_addr (Some this_ip) payload) ;;
         on_sock (sock_sendall message)
       else
         message <- lift (pack_message MSG None None []) ;;
         on_sock (sock_sendall message)
     else ret tt) {| queue := q; sock := s |}.
Proof.
  intros [Hopen Hpeer] Hun.
  unfold handleInteraction.
  unfold bind at 1. unfold on_sock at 1. unfold sock_getpeername.
  cbn [sock queue]. rewrite Hopen.
  destruct (peername s) as [p|]; [|congruence].
  unfold bind at 1. unfold lift at 1. rewrite Hun.
  reflexivity.
Qed.

(** C2.  When the message decodes to [SEND(src, dest, payload)],
    [handleInteraction] puts [(src, payload)] at the tail of the mailbox,
    which grows by exactly one entry, and sends the encoding of
    [ACK(src, dest, b'')]. *)
Theorem handleInteraction_SEND (message : bytes) (src dest : addr)
    (payload : bytes) (w : world) :
  connected (sock w) ->
  unpack_message message = Ok (SEND, src, dest, payload) ->
  exists reply,
    pack_message ACK src dest [] = Ok reply
    /\ handleInteraction this_ip message w
       = (Ok tt, {| queue := queue w ++ [(src, payload)];
                    sock := sock_send (sock w) reply |})
    /\ List.length (queue (snd (handleInteraction this_ip message w)))
       = S (List.length (queue w)).
Proof.
  intros Hconn Hun.
  destruct (unpack_message_canonical _ _ _ _ _ Hun) as [Hs Hd].
  destruct (pack_message_canonical ACK src dest [] ltac:(unfold ACK; lia) Hs Hd)
    as (c0 & c1 & c2 & c3 & s0 & s1 & s2 & s3 & d0 & d1 & d2 & d3
        & Hpack & _).
  set (reply := [c0; c1; c2; c3; s0; s1; s2; s3; d0; d1; d2; d3]) in Hpack.
  destruct w as [q s]. cbn [sock queue] in *.
  assert (Hrun : handleInteraction this_ip message {| queue := q; sock := s |}
                 = (Ok tt, {| queue := q ++ [(src, payload)];
                              sock := sock_send s reply |})).
  { rewrite (handleInteraction_decoded _ _ _ _ _ q s Hconn Hun).
    cbn [Z.eqb SEND].
    unfold bind at 1. unfold queue_put at 1. cbn [sock queue].
    unfold bind at 1. unfold lift at 1. rewrite Hpack.
    apply sendall_connected. exact Hconn. }
  exists reply. split; [exact Hpack|]. split; [exact Hrun|].
  rewrite Hrun. cbn [snd queue].
  rewrite length_app. simpl. lia.
Qed.

Lemma pack_nothing_available :
  pack_message MSG None None [] = Ok nothing_available.
Proof. reflexivity. Qed.

(** C3.  When the message decodes to a [REQ]: on a mailbox whose head is
    [(original_source, payload)], [handleInteraction] takes that entry off,
    the mailbox being one entry shorter, and sends the encoding of
    [MSG(original_source, this_ip, payload)]; on an empty mailbox it sends
    the encoding of [MSG(None, None, b'')] and the mailbox stays as it
    was. *)
Theorem handleInteraction_REQ (message : bytes) (src dest : addr)
    (payload ip_bytes : bytes) (w : world) :
  connected (sock w) ->
  mailbox_wf (queue w) ->
  inet_aton this_ip = Ok ip_bytes ->
  unpack_message message = Ok (REQ, src, dest, payload) ->
  match queue w with
  | (original_source, stored) :: rest =>
      exists reply,
        pack_message MSG original_source (Some this_ip) stored = Ok reply
        /\ handleInteraction this_ip message w
           = (Ok tt, {| queue := rest; sock := sock_send (sock w) reply |})
        /\ S (List.length (queue (snd (handleInteraction this_ip message w))))
           = List.length (queue w)
  | [] =>
      pack_message MSG None None [] = Ok nothing_available
      /\ handleInteraction this_ip message w
         = (Ok tt, {| queue := [];
                      sock := sock_send (sock w) nothing_available |})
  end.
Proof.
  intros Hconn Hwf Hip Hun.
  destruct w as [q s]. cbn [sock queue] in *.
  pose proof (handleInteraction_decoded _ _ _ _ _ q s Hconn Hun) as Hdec.
  cbn [Z.eqb REQ SEND] in Hdec.
  unfold bind at 1 in Hdec. unfold queue_empty at 1 in Hdec.
  destruct q as [|[original_source stored] rest].
  - split; [reflexivity|].
    refine (eq_trans Hdec _).
    cbn [Pos.eqb Queue_empty queue negb].
    unfold bind at 1. unfold lift at 1. rewrite pack_nothing_available.
    apply sendall_connected. exact Hconn.
  - inversion Hwf as [|e q' Hsrc _]; subst. cbn [fst] in Hsrc.
    destruct (canonical_addr_bytes original_source Hsrc)
      as (s0 & s1 & s2 & s3 & Hsb & _).
    assert (Hpack : exists reply,
               pack_message MSG original_source (Some this_ip) stored
               = Ok reply).
    { unfold pack_message. rewrite Hsb. cbn [rbind addr_bytes].
      rewrite Hip. cbn [rbind]. eexists. reflexivity. }
    destruct Hpack as [reply Hpack].
    exists reply. split; [exact Hpack|].
    match goal with
    | |- ?run = _ /\ _ =>
        assert (Hrun : run = (Ok tt, {| queue := rest;
                                        sock := sock_send s reply |}))
    end.
    { refine (eq_trans Hdec _).
      cbn [Pos.eqb Queue_empty queue negb].
      unfold bind at 1. unfold queue_get at 1. cbn [queue Queue_get sock].
      unfold bind at 1. unfold lift at 1. rewrite Hpack.
      apply sendall_connected. exact Hconn. }
    split; [exact Hrun|].
    rewrite Hrun. reflexivity.
Qed.

(** C10.  When the message decodes to a command that is neither [SEND] nor
    [REQ], [handleInteraction] returns normally, sends nothing and leaves
    the mailbox as it was. *)
Theorem handleInteraction_other (message : bytes) (command : Z)
    (src dest : addr) (payload : bytes) (w : world) :
  connected (sock w) ->
  unpack_message message = Ok (command, src, dest, payload) ->
  command <> SEND -> command <> REQ ->
  handleInteraction this_ip message w = (Ok tt, w).
Proof.
  intros Hconn Hun Hsend Hreq.
  destruct w as [q s]. cbn [sock] in Hconn.
  rewrite (handleInteraction_decoded _ _ _ _ _ q s Hconn Hun).
  destruct (Z.eqb_spec command SEND); [contradiction|].
  destruct (Z.eqb_spec command REQ); [contradiction|].
  reflexivity.
Qed.


Lemma handleInteraction_mailbox_wf (message : bytes) (w : world) :
  mailbox_wf (queue w) ->
  mailbox_wf (queue (snd (handleInteraction this_ip message w))).
Proof.
  intros Hwf. destruct w as [q s]. cbn [queue] in Hwf.
  unfold handleInteraction.
  unfold bind at 1. unfold on_sock at 1. cbn [sock queue].
  destruct (sock_getpeername s) as [[p|e|] s1]; try exact Hwf.
  unfold bind at 1. unfold lift at 1.
  destruct (unpack_message message) as [[[[command src] dest] payload]|e|]
    eqn:Hun; try exact Hwf.
  destruct (unpack_message_canonical _ _ _ _ _ Hun) as [Hsrc _].
  assert (Hput : mailbox_wf (q ++ [(src, payload)])).
  { apply Forall_app. split; [exact Hwf|]. constructor; [exact Hsrc|constructor]. }
  destruct (command =? SEND).
  - unfold bind at 1. unfold queue_put at 1. cbn [queue sock].
    unfold bind at 1. unfold lift at 1.
    destruct (pack_message ACK src dest []) as [reply|e|]; try exact Hput.
    unfold on_sock. cbn [sock queue].
    destruct (sock_sendall reply s1) as [r s2]. exact Hput.
  - destruct (command =? REQ); [|exact Hwf].
    unfold bind at 1. unfold queue_empty at 1. cbn [queue].
    destruct q as [|[original_source stored] rest]; cbn [Queue_empty negb].
    + unfold bind at 1. unfold lift at 1.
      destruct (pack_message MSG None None []) as [reply|e|]; try exact Hwf.
      unfold on_sock. cbn [sock queue].
      destruct (sock_sendall reply s1) as [r s2]. exact Hwf.
    + assert (Hrest : mailbox_wf rest) by (inversion Hwf; assumption).
      unfold bind at 1. unfold queue_get at 1. cbn [queue Queue_get sock].
      unfold bind at 1. unfold lift at 1.
      destruct (pack_message MSG original_source (Some this_ip) stored)
        as [reply|e|]; try exact Hrest.
      unfold on_sock. cbn [sock queue].
      destruct (sock_sendall reply s1) as [r s2]. exact Hrest.
Qed.

(** What handling a decoded message does to the mailbox, whether or not
    the reply then goes out: a [SEND] is [Queue_put], a [REQ] is
    [try_dequeue]. *)
Lemma handleInteraction_queue (message : bytes) (command : Z)
    (src dest : addr) (payload : bytes) (w : world) :
  connected (sock w) ->
  unpack_message message = Ok (command, src, dest, payload) ->
  queue (snd (handleInteraction this_ip message w))
  = if command =? SEND then Queue_put (queue w) (src, payload)
    else if command =? REQ then snd (try_dequeue (queue w))
    else queue w.
Proof.
  intros Hconn Hun. destruct w as [q s]. cbn [sock queue] in *.
  refine (eq_trans
            (f_equal (fun r => queue (snd r))
               (handleInteraction_decoded _ _ _ _ _ q s Hconn Hun)) _).
  destruct (command =? SEND).
  - unfold bind at 1. unfold queue_put at 1. cbn [queue sock].
    unfold bind at 1. unfold lift at 1.
    destruct (pack_message ACK src dest []) as [reply|e|]; try reflexivity.
    unfold on_sock. cbn [sock queue].
    destruct (sock_sendall reply s) as [r s2]. reflexivity.
  - destruct (command =? REQ); [|reflexivity].
    unfold bind at 1. unfold queue_empty at 1. cbn [queue].
    destruct q as [|[original_source stored] rest]; cbn [Queue_empty negb].
    + unfold bind at 1. unfold lift at 1.
      rewrite pack_nothing_available.
      unfold on_sock. cbn [sock queue].
      destruct (sock_sendall nothing_available s) as [r s2]. reflexivity.
    + unfold bind at 1. unfold queue_get at 1. cbn [queue Queue_get sock].
      unfold bind at 1. unfold lift at 1.
      destruct (pack_message MSG original_source (Some this_ip) stored)
        as [reply|e|]; try reflexivity.
      unfold on_sock. cbn [sock queue].
      destruct (sock_sendall reply s) as [r s2]. reflexivity.
Qed.

(** A socket is still connected after a send. *)
Lemma sock_send_connected (s : socket) (data : bytes) :
  connected s -> connected (sock_send s data).
Proof. intros H. exact H. Qed.

(** C9.  On an empty mailbox the guarded dequeue gives nothing, however
    many times in a row it is tried, and the mailbox stays empty; and the
    relay answers any run of [REQ] messages on an empty mailbox with
    [MSG(None, None, b'')] each time, without raising, the mailbox staying
    empty. *)
Theorem empty_mailbox_idempotent (n : nat) (messages : list bytes)
    (s : socket) :
  connected s ->
  Forall (fun m => exists src dest payload,
              unpack_message m = Ok (REQ, src, dest, payload)) messages ->
  dequeue_n n [] = (repeat None n, [])
  /\ handleInteractions this_ip messages {| queue := []; sock := s |}
     = (Ok tt,
        {| queue := [];
           sock := fold_left sock_send
                     (repeat nothing_available (List.length messages)) s |}).
Proof.
  intros Hconn Hreq. split; [apply dequeue_n_nil|].
  revert s Hconn.
  induction Hreq as [|m ms (src & dest & payload & Hun) _ IH];
    intros s Hconn.
  - reflexivity.
  - cbn [handleInteractions List.length repeat fold_left].
    unfold bind.
    pose proof (handleInteraction_decoded m REQ src dest payload [] s
                  Hconn Hun) as Hdec.
    cbn [Z.eqb REQ SEND Pos.eqb] in Hdec.
    unfold bind at 1 in Hdec. unfold queue_empty at 1 in Hdec.
    cbn [queue Queue_empty negb] in Hdec.
    unfold bind at 1 in Hdec. unfold lift at 1 in Hdec.
    rewrite pack_nothing_available in Hdec.
    rewrite sendall_connected in Hdec by exact Hconn.
    rewrite Hdec.
    apply IH. apply sock_send_connected. exact Hconn.
Qed.

End RelayProperties.

(** ** The client driver *)

Section ClientProperties.

Variable this_ip : string.

(** [recv_loop] is the loop of [receive]: one [recv]; an empty chunk ends
    it, any other chunk is appended and the loop goes round again. *)
Lemma recv_loop_unfold (data : bytes) (s : socket) :
  recv_loop data s
  = (chunk <- sock_recv ;;
     match chunk with
     | [] => ret data
     | _ :: _ => recv_loop (data ++ chunk)
     end) s.
Proof.
  destruct s as [pn [|] st ib]; [reflexivity|].
  destruct ib as [|[|b chunk] more]; reflexivity.
Qed.

Ltac run_client :=
  unfold send, receive, body, procedure, send_body, receive_body, then_,
    except_ConnectionError, bind, sock_connect, sock_getpeername, lift,
    sock_sendall, select_ready, sock_recv, recv_loop, sock_close, ret,
    raise, new_socket;
  cbn [closed peername sent inbox app fst snd].

Ltac step := cbn [closed peername sent inbox app fst snd].

(** C6, as amended.  In [send], once the request has gone out and the
    socket has become readable, a reply that decodes to any command other
    than [ACK] makes the call raise [AckTimeout], the exception it also
    raises when no reply comes in time. *)
Theorem send_non_ACK_raises_AckTimeout (dest_addr : string)
    (payload message : bytes) (net : network) (command : Z)
    (src dest : addr) (reply_payload : bytes) :
  connect_ok net = true ->
  pack_message SEND (Some this_ip) (Some dest_addr) payload = Ok message ->
  readable net = true ->
  unpack_message (hd [] (incoming net))
  = Ok (command, src, dest, reply_payload) ->
  command <> ACK ->
  fst (send this_ip dest_addr payload net) = Raise AckTimeout.
Proof.
  intros Hconn Hpack Hready Hun Hcmd.
  run_client. rewrite Hconn. step.
  rewrite Hpack. step.
  rewrite Hready. step.
  destruct (incoming net) as [|chunk more]; cbn [hd] in Hun.
  - discriminate Hun.
  - step. rewrite Hun. step.
    destruct (Z.eqb_spec command ACK); [contradiction|reflexivity].
Qed.

(** C7, what the code does: however the call ends, [send] leaves the
    socket it opened unclosed; its [sock.close()] comes after an [if] whose
    every branch returns or raises. *)
Theorem send_never_closes (dest_addr : string) (payload : bytes)
    (net : network) :
  closed (snd (send this_ip dest_addr payload net)) = false.
Proof.
  run_client.
  destruct (connect_ok net); [|reflexivity].
  step.
  destruct (pack_message SEND (Some this_ip) (Some dest_addr) payload);
    try reflexivity.
  step.
  destruct (readable net); [|reflexivity].
  step.
  destruct (incoming net) as [|chunk more]; step.
  - destruct (unpack_message []) as [[[[command src] dest] p]|e|];
      try reflexivity.
    destruct (command =? ACK); reflexivity.
  - destruct (unpack_message chunk) as [[[[command src] dest] p]|e|];
      try reflexivity.
    destruct (command =? ACK); reflexivity.
Qed.

(** [receive], for its part, closes the socket once [select] has
    answered and the reply, if any, has been decoded. *)
Lemma receive_closes (net : network) (message : bytes) :
  connect_ok net = true ->
  pack_message REQ (Some this_ip) None [] = Ok message ->
  (readable net = false
   \/ exists decoded,
        unpack_message (fst (drain_inbox (incoming net) [])) = Ok decoded) ->
  closed (snd (receive this_ip net)) = true.
Proof.
  intros Hconn Hpack Hcase.
  run_client. rewrite Hconn. step.
  rewrite Hpack. step.
  destruct (readable net); [|reflexivity].
  destruct Hcase as [Hno|[[[[command src] dest] p] Hun]]; [discriminate|].
  step.
  destruct (drain_inbox (incoming net) []) as [data rest].
  cbn [fst] in Hun. step. rewrite Hun.
  step.
  destruct (command =? MSG); [|reflexivity].
  destruct (bytes_eqb p [] && is_None src); reflexivity.
Qed.

(** C5.  In [receive], once the reply has been read and decodes to a
    [MSG], the call returns a pair: [(None, None)] exactly when the decoded
    source is absent and the payload is empty, and [(source, payload)] in
    every other case. *)
Theorem receive_MSG_result (net : network) (message : bytes)
    (src dest : addr) (payload : bytes) :
  connect_ok net = true ->
  pack_message REQ (Some this_ip) None [] = Ok message ->
  readable net = true ->
  unpack_message (fst (drain_inbox (incoming net) []))
  = Ok (MSG, src, dest, payload) ->
  exists r : addr * option bytes,
    fst (receive this_ip net) = Ok (Some r)
    /\ (r = (None, None) <-> (src = None /\ payload = []))
    /\ ((src = None /\ payload = []) \/ r = (src, Some payload)).
Proof.
  intros Hconn Hpack Hready Hun.
  run_client. rewrite Hconn. step.
  rewrite Hpack. step.
  rewrite Hready. step.
  destruct (drain_inbox (incoming net) []) as [data rest].
  cbn [fst] in Hun. step. rewrite Hun.
  cbn [closed peername sent inbox app fst snd Z.eqb MSG Pos.eqb].
  destruct (bytes_eqb payload []) eqn:Hp; cbn [andb].
  - apply bytes_eqb_eq in Hp. subst payload.
    destruct src as [s|]; cbn [is_None fst].
    + exists (Some s, Some []). split; [reflexivity|].
      split; [|right; reflexivity].
      split; [discriminate|]. intros [H _]. discriminate H.
    + exists (None, None). split; [reflexivity|].
      split; [|left; auto]. split; auto.
  - apply bytes_eqb_neq in Hp.
    exists (src, Some payload). split; [reflexivity|].
    split; [|right; reflexivity].
    split; [discriminate|]. intros [_ H]. contradiction.
Qed.

End ClientProperties.

(** ** The scenarios, and the claims at concrete inputs *)

Lemma canonical_addr_A : canonical_addr (Some addr_A).
Proof.
  exists x0a, x00, x00, x01. split; [discriminate|reflexivity].
Defined.

Lemma accepted_sock_connected : connected accepted_sock.
Proof. split; [reflexivity|discriminate]. Defined.

(** C1 at [SEND] from [addr_A] with no destination, carrying [hello]. *)
Lemma pack_unpack_roundtrip_witness :
  0 <= SEND < 2 ^ 32
  /\ canonical_addr (Some addr_A) /\ canonical_addr None
  /\ exists message,
       pack_message SEND (Some addr_A) None hello = Ok message
       /\ unpack_message message = Ok (SEND, Some addr_A, None, hello).
Proof.
  assert (Hc : 0 <= SEND < 2 ^ 32) by (unfold SEND; lia).
  split; [exact Hc|].
  split; [exact canonical_addr_A|].
  split; [exact I|].
  exact (pack_unpack_roundtrip SEND (Some addr_A) None hello
           Hc canonical_addr_A I).
Defined.

(** Counterexample to C1 as stated: 0.0.0.0 is a valid IPv4 address
    string, [pack_message] writes it as the four zero bytes that stand for
    an absent address, and [unpack_message] gives [None] back for it. *)
Lemma roundtrip_zero_address_counterexample :
  pack_message SEND (Some "0.0.0.0"%string) (Some relay_ip) hello
  = Ok ([x00; x00; x00; x00; x00; x00; x00; x00; x0a; x00; x00; x02]
          ++ hello)
  /\ unpack_message
       ([x00; x00; x00; x00; x00; x00; x00; x00; x0a; x00; x00; x02]
          ++ hello)
     = Ok (SEND, None, Some relay_ip, hello)
  /\ unpack_message
       ([x00; x00; x00; x00; x00; x00; x00; x00; x0a; x00; x00; x02]
          ++ hello)
     <> Ok (SEND, Some "0.0.0.0"%string, Some relay_ip, hello).
Proof.
  split; [reflexivity|]. split; [reflexivity|].
  intros H. vm_compute in H. discriminate H.
Qed.

(** Address strings [inet_aton] accepts in another than the canonical form
    come back in the canonical form. *)
Example noncanonical_address_normalised :
  rbind (pack_message SEND (Some "127.1"%string) None []) unpack_message
  = Ok (SEND, Some "127.0.0.1"%string, None, [])
  /\ rbind (pack_message SEND (Some "010.0.0.1"%string) None [])
       unpack_message
     = Ok (SEND, Some "8.0.0.1"%string, None, []).
Proof. split; reflexivity. Qed.

(** C8 at an eleven-byte buffer and at [send_hello]. *)
Lemma unpack_message_undersized_witness :
  (List.length (firstn 11 send_hello) < 12)%nat
  /\ unpack_message (firstn 11 send_hello) = Raise StructError
  /\ (12 <= List.length send_hello)%nat
  /\ exists command src dest,
       unpack_message send_hello
       = Ok (command, src, dest, skipn 12 send_hello).
Proof.
  assert (Hshort : (List.length (firstn 11 send_hello) < 12)%nat)
    by (simpl; lia).
  assert (Hlong : (12 <= List.length send_hello)%nat) by (simpl; lia).
  split; [exact Hshort|].
  split; [exact (proj1 (unpack_message_undersized _) Hshort)|].
  split; [exact Hlong|].
  exact (proj2 (unpack_message_undersized _) Hlong).
Defined.

(** C2 on scenario A: [SEND] from [addr_A] carrying [hello] reaches a
    relay whose mailbox is empty; the mailbox then holds one entry. *)
Lemma handleInteraction_SEND_witness :
  connected accepted_sock
  /\ unpack_message send_hello
     = Ok (SEND, Some addr_A, Some relay_ip, hello)
  /\ exists reply,
       pack_message ACK (Some addr_A) (Some relay_ip) [] = Ok reply
       /\ handleInteraction relay_ip send_hello
            {| queue := []; sock := accepted_sock |}
          = (Ok tt, {| queue := [] ++ [(Some addr_A, hello)];
                       sock := sock_send accepted_sock reply |})
       /\ List.length
            (queue (snd (handleInteraction relay_ip send_hello
                           {| queue := []; sock := accepted_sock |})))
          = 1%nat.
Proof.
  assert (Hun : unpack_message send_hello
                = Ok (SEND, Some addr_A, Some relay_ip, hello))
    by reflexivity.
  split; [exact accepted_sock_connected|].
  split; [exact Hun|].
  exact (handleInteraction_SEND relay_ip send_hello (Some addr_A)
           (Some relay_ip) hello {| queue := []; sock := accepted_sock |}
           accepted_sock_connected Hun).
Defined.

(** C3 on scenario B: a [REQ] reaches the relay that stored [hello] from
    [addr_A]; the mailbox is empty again. *)
Lemma handleInteraction_REQ_witness :
  connected accepted_sock
  /\ mailbox_wf [(Some addr_A, hello)]
  /\ inet_aton relay_ip = Ok [x0a; x00; x00; x02]
  /\ unpack_message req_message = Ok (REQ, Some addr_A, None, [])
  /\ exists reply,
       pack_message MSG (Some addr_A) (Some relay_ip) hello = Ok reply
       /\ handleInteraction relay_ip req_message
            {| queue := [(Some addr_A, hello)]; sock := accepted_sock |}
          = (Ok tt, {| queue := [];
                       sock := sock_send accepted_sock reply |})
       /\ S (List.length
               (queue (snd (handleInteraction relay_ip req_message
                              {| queue := [(Some addr_A, hello)];
                                 sock := accepted_sock |}))))
          = 1%nat.
Proof.
  assert (Hwf : mailbox_wf [(Some addr_A, hello)]).
  { constructor; [exact canonical_addr_A|constructor]. }
  assert (Hip : inet_aton relay_ip = Ok [x0a; x00; x00; x02])
    by reflexivity.
  assert (Hun : unpack_message req_message
                = Ok (REQ, Some addr_A, None, [])) by reflexivity.
  split; [exact accepted_sock_connected|].
  split; [exact Hwf|]. split; [exact Hip|]. split; [exact Hun|].
  exact (handleInteraction_REQ relay_ip req_message (Some addr_A) None []
           [x0a; x00; x00; x02]
           {| queue := [(Some addr_A, hello)]; sock := accepted_sock |}
           accepted_sock_connected Hwf Hip Hun).
Defined.

(** C10 at an [ACK] sent to the relay. *)
Lemma handleInteraction_other_witness :
  connected accepted_sock
  /\ unpack_message ack_message = Ok (ACK, Some addr_A, Some relay_ip, [])
  /\ ACK <> SEND /\ ACK <> REQ
  /\ handleInteraction relay_ip ack_message
       {| queue := [(Some addr_A, hello)]; sock := accepted_sock |}
     = (Ok tt, {| queue := [(Some addr_A, hello)]; sock := accepted_sock |}).
Proof.
  assert (Hun : unpack_message ack_message
                = Ok (ACK, Some addr_A, Some relay_ip, [])) by reflexivity.
  assert (H1 : ACK <> SEND) by discriminate.
  assert (H2 : ACK <> REQ) by discriminate.
  split; [exact accepted_sock_connected|].
  split; [exact Hun|]. split; [exact H1|]. split; [exact H2|].
  exact (handleInteraction_other relay_ip ack_message ACK (Some addr_A)
           (Some relay_ip) []
           {| queue := [(Some addr_A, hello)]; sock := accepted_sock |}
           accepted_sock_connected Hun H1 H2).
Defined.

(** C9 at three dequeues, and at two [REQ] messages in a row. *)
Lemma empty_mailbox_idempotent_witness :
  connected accepted_sock
  /\ Forall (fun m => exists src dest payload,
                 unpack_message m = Ok (REQ, src, dest, payload))
       [req_message; req_message]
  /\ dequeue_n 3 [] = ([None; None; None], [])
  /\ handleInteractions relay_ip [req_message; req_message]
       {| queue := []; sock := accepted_sock |}
     = (Ok tt,
        {| queue := [];
           sock := sock_send (sock_send accepted_sock nothing_available)
                     nothing_available |}).
Proof.
  assert (Hreq : exists src dest payload,
             unpack_message req_message = Ok (REQ, src, dest, payload)).
  { exists (Some addr_A), None, []. reflexivity. }
  assert (Hall : Forall (fun m => exists src dest payload,
                             unpack_message m = Ok (REQ, src, dest, payload))
                   [req_message; req_message]).
  { constructor; [exact Hreq|]. constructor; [exact Hreq|constructor]. }
  split; [exact accepted_sock_connected|].
  split; [exact Hall|].
  exact (empty_mailbox_idempotent relay_ip 3 [req_message; req_message]
           accepted_sock accepted_sock_connected Hall).
Defined.

(** C5 on scenario C: the relay answers [receive] with
    [MSG(None, None, b'')], and the call returns [(None, None)]. *)
Lemma receive_MSG_result_witness :
  connect_ok (answering nothing_available) = true
  /\ pack_message REQ (Some addr_A) None [] = Ok req_message
  /\ readable (answering nothing_available) = true
  /\ unpack_message
       (fst (drain_inbox (incoming (answering nothing_available)) []))
     = Ok (MSG, None, None, [])
  /\ exists r : addr * option bytes,
       fst (receive addr_A (answering nothing_available)) = Ok (Some r)
       /\ (r = (None, None) <-> (@None string = None /\ @nil byte = []))
       /\ ((@None string = None /\ @nil byte = [])
           \/ r = (None, Some [])).
Proof.
  assert (Hpack : pack_message REQ (Some addr_A) None [] = Ok req_message)
    by reflexivity.
  assert (Hun : unpack_message
                  (fst (drain_inbox
                          (incoming (answering nothing_available)) []))
                = Ok (MSG, None, None, [])) by reflexivity.
  split; [reflexivity|]. split; [exact Hpack|].
  split; [reflexivity|]. split; [exact Hun|].
  exact (receive_MSG_result addr_A (answering nothing_available) req_message
           None None [] eq_refl Hpack eq_refl Hun).
Defined.

(** C6 at a relay that answers a [SEND] with a [MSG]. *)
Lemma send_non_ACK_raises_AckTimeout_witness :
  connect_ok (answering nothing_available) = true
  /\ pack_message SEND (Some addr_A) (Some relay_ip) hello = Ok send_hello
  /\ readable (answering nothing_available) = true
  /\ unpack_message (hd [] (incoming (answering nothing_available)))
     = Ok (MSG, None, None, [])
  /\ MSG <> ACK
  /\ fst (send addr_A relay_ip hello (answering nothing_available))
     = Raise AckTimeout.
Proof.
  assert (Hpack : pack_message SEND (Some addr_A) (Some relay_ip) hello
                  = Ok send_hello) by reflexivity.
  assert (Hun : unpack_message
                  (hd [] (incoming (answering nothing_available)))
                = Ok (MSG, None, None, [])) by reflexivity.
  assert (Hne : MSG <> ACK) by discriminate.
  split; [reflexivity|]. split; [exact Hpack|].
  split; [reflexivity|]. split; [exact Hun|]. split; [exact Hne|].
  exact (send_non_ACK_raises_AckTimeout addr_A relay_ip hello send_hello
           (answering nothing_available) MSG None None []
           eq_refl Hpack eq_refl Hun Hne).
Defined.

(** Counterexample to C6 as stated: the relay answers a [SEND] with a
    [MSG]; the reply decodes, its command is not [ACK], and [send] raises
    [AckTimeout], not the error class kept for unexpected commands. *)
Lemma send_non_ACK_counterexample :
  unpack_message (hd [] (incoming (answering nothing_available)))
  = Ok (MSG, None, None, [])
  /\ MSG <> ACK
  /\ fst (send addr_A relay_ip hello (answering nothing_available))
     = Raise AckTimeout
  /\ fst (send addr_A relay_ip hello (answering nothing_available))
     <> Raise CommandError.
Proof.
  split; [reflexivity|]. split; [discriminate|].
  split; [reflexivity|].
  intros H. vm_compute in H. discriminate H.
Qed.

(** C7 at an acknowledged [send]: the call returns normally and the socket
    is still open; the same exchange through [receive] ends with the
    socket closed. *)
Example send_acknowledged_socket_open :
  send addr_A relay_ip hello (answering ack_message)
  = (Ok tt,
     {| peername := Some relay_ip; closed := false;
        sent := [send_hello]; inbox := [] |})
  /\ closed (snd (receive addr_A (answering nothing_available))) = true.
Proof. split; reflexivity. Qed.

(** * Further properties *)

(** ** The codec, the other way round *)

Section CodecInverse.

Lemma testbit_byte_high (b : byte) (n : Z) :
  8 <= n -> Z.testbit (Z_of_byte b) n = false.
Proof.
  intros Hn.
  assert (Hb : 0 <= Z_of_byte b < 2 ^ 8).
  { unfold Z_of_byte. pose proof (Byte.to_N_bounded b). lia. }
  rewrite <- (Z.mod_small _ _ Hb).
  apply Z.mod_pow2_bits_high. lia.
Qed.

(** The bits of a header word are the bits of its four bytes. *)
Lemma be_to_u32_bit (b0 b1 b2 b3 : byte) (n : Z) :
  0 <= n ->
  Z.testbit (be_to_u32 b0 b1 b2 b3) n
  = if n <? 8 then Z.testbit (Z_of_byte b3) n
    else if n <? 16 then Z.testbit (Z_of_byte b2) (n - 8)
    else if n <? 24 then Z.testbit (Z_of_byte b1) (n - 16)
    else Z.testbit (Z_of_byte b0) (n - 24).
Proof.
  intros Hn. unfold be_to_u32.
  rewrite !Z.lor_spec, !Z.shiftl_spec by lia.
  destruct (Z.ltb_spec n 8).
  - rewrite !(Z.testbit_neg_r _ (n - _)) by lia. reflexivity.
  - rewrite (testbit_byte_high b3 n) by lia.
    destruct (Z.ltb_spec n 16).
    + rewrite !(Z.testbit_neg_r _ (n - 24)), !(Z.testbit_neg_r _ (n - 16))
        by lia.
      now rewrite orb_false_r.
    + rewrite (testbit_byte_high b2 (n - 8)) by lia.
      destruct (Z.ltb_spec n 24).
      * rewrite !(Z.testbit_neg_r _ (n - 24)) by lia.
        now rewrite !orb_false_r.
      * rewrite (testbit_byte_high b1 (n - 16)) by lia.
        now rewrite !orb_false_r.
Qed.

Lemma be_to_u32_range (b0 b1 b2 b3 : byte) :
  0 <= be_to_u32 b0 b1 b2 b3 < 2 ^ 32.
Proof.
  assert (Hmod : be_to_u32 b0 b1 b2 b3 = be_to_u32 b0 b1 b2 b3 mod 2 ^ 32).
  { apply Z.bits_inj'. intros n Hn.
    rewrite Z.testbit_mod_pow2 by lia.
    destruct (Z.ltb_spec n 32); [reflexivity|].
    rewrite be_to_u32_bit by lia.
    destruct (Z.ltb_spec n 8); [lia|].
    destruct (Z.ltb_spec n 16); [lia|].
    destruct (Z.ltb_spec n 24); [lia|].
    apply testbit_byte_high. lia. }
  rewrite Hmod. apply Z.mod_pos_bound. lia.
Qed.

Lemma byte_of_Z_low (z : Z) (b : byte) :
  Z.land z 255 = Z_of_byte b -> byte_of_Z z = b.
Proof.
  intros H. rewrite <- (byte_of_Z_of_byte b), <- H.
  unfold byte_of_Z.
  now rewrite <- Z.land_assoc, Z.land_diag.
Qed.

Lemma byte_bits (b : byte) (n : Z) :
  0 <= n ->
  Z.testbit (Z_of_byte b) n = Z.testbit (Z_of_byte b) n && (n <? 8).
Proof.
  intros Hn. destruct (Z.ltb_spec n 8).
  - now rewrite andb_true_r.
  - rewrite testbit_byte_high by lia. reflexivity.
Qed.

(** ['!I'] unpacked then packed is the four bytes unpacked. *)
Lemma u32_to_be_to_u32 (b0 b1 b2 b3 : byte) :
  u32_to_be (be_to_u32 b0 b1 b2 b3) = [b0; b1; b2; b3].
Proof.
  assert (Hslot : forall k b,
             0 <= k ->
             (forall n, 0 <= n < 8 ->
                Z.testbit (be_to_u32 b0 b1 b2 b3) (n + k)
                = Z.testbit (Z_of_byte b) n) ->
             byte_of_Z (Z.shiftr (be_to_u32 b0 b1 b2 b3) k) = b).
  { intros k b Hk Hbits. apply byte_of_Z_low.
    apply Z.bits_inj'. intros n Hn.
    rewrite Z.land_spec, Z.shiftr_spec by lia.
    change 255 with (Z.ones 8). rewrite Z.testbit_ones by lia.
    rewrite (byte_bits b n Hn).
    destruct (Z.leb_spec 0 n); [|lia].
    destruct (Z.ltb_spec n 8); cbn [andb].
    - rewrite Hbits by lia. now rewrite !andb_true_r.
    - now rewrite !andb_false_r. }
  unfold u32_to_be.
  rewrite <- (Z.shiftr_0_r (be_to_u32 b0 b1 b2 b3)) at 4.
  rewrite (Hslot 24 b0), (Hslot 16 b1), (Hslot 8 b2), (Hslot 0 b3);
    try lia; try reflexivity;
    intros n Hn; rewrite be_to_u32_bit by lia.
  - destruct (Z.ltb_spec (n + 0) 8); [|lia]. f_equal. lia.
  - destruct (Z.ltb_spec (n + 8) 8); [lia|].
    destruct (Z.ltb_spec (n + 8) 16); [|lia]. f_equal. lia.
  - destruct (Z.ltb_spec (n + 16) 8); [lia|].
    destruct (Z.ltb_spec (n + 16) 16); [lia|].
    destruct (Z.ltb_spec (n + 16) 24); [|lia]. f_equal. lia.
  - destruct (Z.ltb_spec (n + 24) 8); [lia|].
    destruct (Z.ltb_spec (n + 24) 16); [lia|].
    destruct (Z.ltb_spec (n + 24) 24); [lia|]. f_equal. lia.
Qed.

(** The four bytes [addr_of_bytes] decoded are the bytes [pack_message]
    writes for the address it gave. *)
Lemma addr_bytes_of_bytes (b0 b1 b2 b3 : byte) (a : addr) :
  addr_of_bytes [b0; b1; b2; b3] = Ok a ->
  addr_bytes a = Ok [b0; b1; b2; b3].
Proof.
  unfold addr_of_bytes.
  destruct (bytes_eqb [b0; b1; b2; b3] zero_addr) eqn:Hz.
  - intros H. injection H as <-.
    apply bytes_eqb_eq in Hz. rewrite Hz. reflexivity.
  - cbn [inet_ntoa rbind]. intros H. injection H as <-.
    cbn [addr_bytes]. apply inet_aton_dotted_quad.
Qed.

(** X1.  Decoding then encoding is the identity on the wire: every buffer
    of twelve bytes or more is decoded by [unpack_message], and
    [pack_message] on what was decoded gives the buffer back, byte for
    byte. *)
Theorem pack_unpack_identity (message : bytes) :
  (12 <= List.length message)%nat ->
  exists command src dest payload,
    unpack_message message = Ok (command, src, dest, payload)
    /\ pack_message command src dest payload = Ok message.
Proof.
  intros Hlen.
  destruct (header_split message Hlen)
    as (c0 & c1 & c2 & c3 & s0 & s1 & s2 & s3 & d0 & d1 & d2 & d3 & Hm).
  destruct (addr_of_bytes_canonical s0 s1 s2 s3) as (src & Hs & _).
  destruct (addr_of_bytes_canonical d0 d1 d2 d3) as (dest & Hd & _).
  exists (be_to_u32 c0 c1 c2 c3), src, dest, (skipn 12 message).
  split.
  - rewrite Hm at 1. rewrite unpack_message_header, Hs, Hd. reflexivity.
  - unfold pack_message.
    rewrite (addr_bytes_of_bytes _ _ _ _ _ Hs),
      (addr_bytes_of_bytes _ _ _ _ _ Hd).
    cbn [rbind]. unfold IPCMessage_pack.
    pose proof (be_to_u32_range c0 c1 c2 c3) as Hr.
    destruct (Z.leb_spec 0 (be_to_u32 c0 c1 c2 c3)); [|lia].
    destruct (Z.ltb_spec (be_to_u32 c0 c1 c2 c3) (2 ^ 32)); [|lia].
    cbn [andb rbind]. rewrite u32_to_be_to_u32.
    rewrite Hm at 2. reflexivity.
Qed.

End CodecInverse.

(** ** What [pack_message] writes *)

Section PackLayout.

Lemma field_4s_four (b : bytes) :
  exists b0 b1 b2 b3, field_4s b = [b0; b1; b2; b3].
Proof.
  unfold field_4s.
  destruct b as [|b0 [|b1 [|b2 [|b3 b]]]]; cbn; eauto.
Qed.

(** A successful [pack_message]: both addresses were accepted, the command
    fits the header, and the output is a twelve-byte header then the
    payload. *)
Lemma pack_message_inv (command : Z) (src dest : addr)
    (payload message : bytes) :
  pack_message command src dest payload = Ok message ->
  0 <= command < 2 ^ 32
  /\ exists s0 s1 s2 s3 d0 d1 d2 d3,
       message = u32_to_be command
                   ++ [s0; s1; s2; s3] ++ [d0; d1; d2; d3] ++ payload.
Proof.
  unfold pack_message.
  destruct (addr_bytes src) as [sb|e|]; cbn [rbind]; try discriminate.
  destruct (addr_bytes dest) as [db|e|]; cbn [rbind]; try discriminate.
  unfold IPCMessage_pack.
  destruct (Z.leb_spec 0 command) as [Hlo|Hlo];
    cbn [andb rbind]; try discriminate.
  destruct (Z.ltb_spec command (2 ^ 32)) as [Hhi|Hhi];
    cbn [rbind]; try discriminate.
  intros Hok. injection Hok as <-.
  split; [lia|].
  destruct (field_4s_four sb) as (s0 & s1 & s2 & s3 & ->).
  destruct (field_4s_four db) as (d0 & d1 & d2 & d3 & ->).
  exists s0, s1, s2, s3, d0, d1, d2, d3.
  now rewrite <- !app_assoc.
Qed.

(** X2.  Whenever [pack_message] succeeds, its output is the payload
    behind a header of exactly twelve bytes, whatever form the address
    strings had: the length is twelve more than the payload's, and the
    bytes from the twelfth on are the payload. *)
Theorem pack_message_layout (command : Z) (src dest : addr)
    (payload message : bytes) :
  pack_message command src dest payload = Ok message ->
  List.length message = (12 + List.length payload)%nat
  /\ firstn 4 message = u32_to_be command
  /\ skipn 12 message = payload.
Proof.
  intros Hpack.
  destruct (pack_message_inv _ _ _ _ _ Hpack)
    as (_ & s0 & s1 & s2 & s3 & d0 & d1 & d2 & d3 & ->).
  split; [reflexivity|]. split; reflexivity.
Qed.

(** A message [pack_message] wrote is one [unpack_message] reads. *)
Lemma pack_message_unpacks (command : Z) (src dest : addr)
    (payload message : bytes) :
  pack_message command src dest payload = Ok message ->
  exists src' dest',
    unpack_message message = Ok (command, src', dest', payload).
Proof.
  intros Hpack.
  destruct (pack_message_inv _ _ _ _ _ Hpack)
    as (Hc & s0 & s1 & s2 & s3 & d0 & d1 & d2 & d3 & ->).
  destruct (addr_of_bytes_canonical s0 s1 s2 s3) as (src' & Hs & _).
  destruct (addr_of_bytes_canonical d0 d1 d2 d3) as (dest' & Hd & _).
  exists src', dest'.
  pose proof (be_to_u32_to_be command Hc) as Hbe.
  unfold u32_to_be in Hbe |- *.
  cbn [app]. rewrite unpack_message_header, Hs, Hd, Hbe. reflexivity.
Qed.

(** X3.  Whatever [pack_message] writes, [unpack_message] reads: the
    command and the payload come back as they were given, and the
    addresses come back in canonical form, which [pack_message] writes as
    the very same bytes. *)
Theorem pack_message_decodes (command : Z) (src dest : addr)
    (payload message : bytes) :
  pack_message command src dest payload = Ok message ->
  exists src' dest',
    unpack_message message = Ok (command, src', dest', payload)
    /\ canonical_addr src' /\ canonical_addr dest'
    /\ pack_message command src' dest' payload = Ok message.
Proof.
  intros Hpack.
  destruct (pack_message_inv _ _ _ _ _ Hpack)
    as (Hc & s0 & s1 & s2 & s3 & d0 & d1 & d2 & d3 & ->).
  destruct (addr_of_bytes_canonical s0 s1 s2 s3) as (src' & Hs & Hcs).
  destruct (addr_of_bytes_canonical d0 d1 d2 d3) as (dest' & Hd & Hcd).
  exists src', dest'.
  pose proof (be_to_u32_to_be command Hc) as Hbe.
  unfold u32_to_be in Hbe |- *.
  split; [|split; [exact Hcs|split; [exact Hcd|]]].
  - cbn [app]. rewrite unpack_message_header, Hs, Hd, Hbe. reflexivity.
  - unfold pack_message.
    rewrite (addr_bytes_of_bytes _ _ _ _ _ Hs),
      (addr_bytes_of_bytes _ _ _ _ _ Hd).
    cbn [rbind]. unfold IPCMessage_pack.
    destruct (Z.leb_spec 0 command); [|lia].
    destruct (Z.ltb_spec command (2 ^ 32)); [|lia].
    reflexivity.
Qed.

(** The exceptions [pack_message] can raise, and that it always answers. *)
Lemma pack_message_raises (command : Z) (src dest : addr) (payload : bytes) :
  match pack_message command src dest payload with
  | Ok _ => True
  | Raise e => e = OSError \/ e = ValueError \/ e = StructError
  | Blocks => False
  end.
Proof.
  assert (Haddr : forall a, match addr_bytes a with
                            | Ok _ => True
                            | Raise e => e = OSError \/ e = ValueError
                            | Blocks => False
                            end).
  { intros [s|]; cbn [addr_bytes]; [|exact I].
    unfold inet_aton.
    destruct (has_nul s); [now right|].
    destruct (aton_loop 3 [] s) as [[[parts val] rest]|]; [|now left].
    match goal with |- context [if ?c then _ else _] => destruct c end;
      [exact I|now left]. }
  unfold pack_message.
  pose proof (Haddr src) as Hs. pose proof (Haddr dest) as Hd.
  destruct (addr_bytes src) as [sb|e|]; cbn [rbind]; [|tauto|tauto].
  destruct (addr_bytes dest) as [db|e|]; cbn [rbind]; [|tauto|tauto].
  unfold IPCMessage_pack.
  destruct ((0 <=? command) && (command <? 2 ^ 32)); cbn [rbind]; auto.
Qed.

(** [unpack_message] either decodes or raises [struct.error]. *)
Lemma unpack_message_raises (message : bytes) :
  match unpack_message message with
  | Ok _ => True
  | Raise e => e = StructError
  | Blocks => False
  end.
Proof.
  destruct (Nat.lt_ge_cases (List.length message) 12) as [Hlt|Hge].
  - now rewrite unpack_message_short.
  - destruct (header_split message Hge)
      as (c0 & c1 & c2 & c3 & s0 & s1 & s2 & s3 & d0 & d1 & d2 & d3 & Hm).
    destruct (addr_of_bytes_canonical s0 s1 s2 s3) as (a & Ha & _).
    destruct (addr_of_bytes_canonical d0 d1 d2 d3) as (b & Hb & _).
    rewrite Hm, unpack_message_header, Ha, Hb. exact I.
Qed.

End PackLayout.

(** ** More on the relay *)

Section RelayFurther.

Variable this_ip : string.

(** A reply goes out, or the socket is left as it was. *)
Lemma sendall_effect (q : Queue) (s : socket) (data : bytes) :
  exists r s',
    on_sock (sock_sendall data) {| queue := q; sock := s |}
    = (r, {| queue := q; sock := s' |})
    /\ r <> Blocks
    /\ (s' = s \/ s' = sock_send s data).
Proof.
  unfold on_sock, sock_sendall. cbn [sock queue].
  destruct (closed s) eqn:Hc.
  - exists (Raise OSError), s. split; [reflexivity|].
    split; [discriminate|now left].
  - destruct (peername s) eqn:Hp.
    + exists (Ok tt), (sock_send s data).
      split; [unfold sock_send; rewrite Hc, Hp; reflexivity|].
      split; [discriminate|now right].
    + exists (Raise OSError), s. split; [reflexivity|].
      split; [discriminate|now left].
Qed.

Ltac stop_here :=
  eexists _, _; split; [reflexivity|];
  cbn [sock]; split; [discriminate|now left].

Ltac sent_or_not Hs' :=
  cbn [sock];
  destruct Hs' as [->| ->]; [now left|right; eexists; reflexivity].

Lemma handleInteraction_effect (message : bytes) (w : world) :
  exists r w',
    handleInteraction this_ip message w = (r, w')
    /\ r <> Blocks
    /\ (sock w' = sock w
        \/ exists reply, sock w' = sock_send (sock w) reply).
Proof.
  destruct w as [q s]. unfold handleInteraction.
  unfold bind at 1. unfold on_sock at 1. cbn [sock queue].
  assert (Hpeer : exists r, sock_getpeername s = (r, s) /\ r <> Blocks).
  { unfold sock_getpeername. destruct (closed s).
    - eexists. split; [reflexivity|discriminate].
    - destruct (peername s); eexists; (split; [reflexivity|discriminate]). }
  destruct Hpeer as (r & -> & Hr).
  destruct r as [p|e|]; [|stop_here|contradiction].
  unfold bind at 1. unfold lift at 1.
  pose proof (unpack_message_raises message) as Hun.
  destruct (unpack_message message) as [[[[command src] dest] payload]|e|];
    [|stop_here|contradiction].
  destruct (command =? SEND).
  - unfold bind at 1. unfold queue_put at 1. cbn [queue sock].
    unfold bind at 1. unfold lift at 1.
    pose proof (pack_message_raises ACK src dest []) as Hp.
    destruct (pack_message ACK src dest []) as [reply|e|];
      [|stop_here|contradiction].
    destruct (sendall_effect (Queue_put q (src, payload)) s reply)
      as (r & s' & -> & Hr' & Hs').
    eexists _, _. split; [reflexivity|]. split; [exact Hr'|].
    sent_or_not Hs'.
  - destruct (command =? REQ); [|stop_here].
    unfold bind at 1. unfold queue_empty at 1. cbn [queue].
    destruct q as [|[original_source stored] rest]; cbn [Queue_empty negb].
    + unfold bind at 1. unfold lift at 1. rewrite pack_nothing_available.
      destruct (sendall_effect [] s nothing_available)
        as (r & s' & -> & Hr' & Hs').
      eexists _, _. split; [reflexivity|]. split; [exact Hr'|].
      sent_or_not Hs'.
    + unfold bind at 1. unfold queue_get at 1. cbn [queue Queue_get sock].
      unfold bind at 1. unfold lift at 1.
      pose proof (pack_message_raises MSG original_source (Some this_ip)
                    stored) as Hp.
      destruct (pack_message MSG original_source (Some this_ip) stored)
        as [reply|e|]; [|stop_here|contradiction].
      destruct (sendall_effect rest s reply) as (r & s' & -> & Hr' & Hs').
      eexists _, _. split; [reflexivity|]. split; [exact Hr'|].
      sent_or_not Hs'.
Qed.

(** X4.  [handleInteraction] always answers: it never ends up waiting on
    an empty queue, because [queue.get()] is only reached behind the test
    that the queue is not empty.  And all it ever does to the socket is to
    send at most one reply. *)
Theorem handleInteraction_never_blocks (message : bytes) (w : world) :
  fst (handleInteraction this_ip message w) <> Blocks
  /\ (sock (snd (handleInteraction this_ip message w)) = sock w
      \/ exists reply,
           sock (snd (handleInteraction this_ip message w))
           = sock_send (sock w) reply).
Proof.
  destruct (handleInteraction_effect message w) as (r & w' & -> & Hr & Hs).
  split; assumption.
Qed.

(** An undersized message on a connected socket. *)
Lemma handleInteraction_short (message : bytes) (q : Queue) (s : socket) :
  connected s ->
  (List.length message < 12)%nat ->
  handleInteraction this_ip message {| queue := q; sock := s |}
  = (Raise StructError, {| queue := q; sock := s |}).
Proof.
  intros [Hopen Hpeer] Hlen.
  unfold handleInteraction.
  unfold bind at 1. unfold on_sock at 1. unfold sock_getpeername.
  cbn [sock queue]. rewrite Hopen.
  destruct (peername s) as [p|]; [|congruence].
  unfold bind at 1. unfold lift at 1.
  rewrite unpack_message_short by exact Hlen. reflexivity.
Qed.

(** X5.  A message shorter than the twelve-byte header makes
    [handleInteraction] raise [struct.error] before it has touched the
    mailbox or the socket: nothing is stored and nothing is sent. *)
Theorem handleInteraction_undersized (message : bytes) (w : world) :
  connected (sock w) ->
  (List.length message < 12)%nat ->
  handleInteraction this_ip message w = (Raise StructError, w).
Proof.
  intros Hconn Hlen. destruct w as [q s].
  apply handleInteraction_short; assumption.
Qed.

(** X6.  The acknowledgment of a [SEND] echoes its addresses byte for
    byte: the reply is the [ACK] command word followed by the eight
    address bytes of the message handled, and carries no payload. *)
Theorem handleInteraction_ACK_echo (message : bytes) (src dest : addr)
    (payload : bytes) (w : world) :
  connected (sock w) ->
  unpack_message message = Ok (SEND, src, dest, payload) ->
  sock (snd (handleInteraction this_ip message w))
  = sock_send (sock w)
      ([x00; x00; x00; x01] ++ firstn 8 (skipn 4 message)).
Proof.
  intros Hconn Hun. destruct w as [q s]. cbn [sock] in *.
  destruct (unpack_message_inv _ _ _ _ _ Hun)
    as (c0 & c1 & c2 & c3 & s0 & s1 & s2 & s3 & d0 & d1 & d2 & d3
        & Hm & _ & Hs & Hd).
  assert (Hpack : pack_message ACK src dest []
                  = Ok ([x00; x00; x00; x01]
                          ++ firstn 8 (skipn 4 message))).
  { unfold pack_message.
    rewrite (addr_bytes_of_bytes _ _ _ _ _ Hs),
      (addr_bytes_of_bytes _ _ _ _ _ Hd), Hm.
    reflexivity. }
  refine (eq_trans
            (f_equal (fun r => sock (snd r))
               (handleInteraction_decoded this_ip _ _ _ _ _ q s Hconn Hun))
            _).
  cbn [Z.eqb SEND].
  unfold bind at 1. unfold queue_put at 1. cbn [queue sock].
  unfold bind at 1. unfold lift at 1. rewrite Hpack.
  rewrite sendall_connected by exact Hconn. reflexivity.
Qed.

(** X7.  A [REQ] is answered without regard to who asks: two messages
    that both decode to [REQ], whatever their source, destination and
    payload, are handled in exactly the same way, so that any requester
    takes the entry at the head of the one mailbox. *)
Theorem handleInteraction_REQ_any_requester (m1 m2 : bytes)
    (src1 dest1 src2 dest2 : addr) (payload1 payload2 : bytes) (w : world) :
  unpack_message m1 = Ok (REQ, src1, dest1, payload1) ->
  unpack_message m2 = Ok (REQ, src2, dest2, payload2) ->
  handleInteraction this_ip m1 w = handleInteraction this_ip m2 w.
Proof.
  intros H1 H2. unfold handleInteraction, bind.
  destruct (on_sock sock_getpeername w) as [[p|e|] w1]; try reflexivity.
  unfold lift. rewrite H1, H2. reflexivity.
Qed.

(** X8.  Any run of messages handled one after the other keeps the
    mailbox well formed, however the run ends: every source stored is
    absent or a canonical dotted quad, which is what makes the later
    [pack_message] of a stored entry succeed. *)
Theorem handleInteractions_mailbox_wf (messages : list bytes) (w : world) :
  mailbox_wf (queue w) ->
  mailbox_wf (queue (snd (handleInteractions this_ip messages w))).
Proof.
  revert w. induction messages as [|m ms IH]; intros w Hwf.
  - exact Hwf.
  - cbn [handleInteractions]. unfold bind.
    pose proof (handleInteraction_mailbox_wf this_ip m w Hwf) as Hstep.
    destruct (handleInteraction this_ip m w) as [[u|e|] w1];
      cbn [snd] in *; auto.
Qed.

End RelayFurther.

(** ** More on the client driver *)

Section ClientFurther.

Variable this_ip : string.

Ltac run_driver :=
  unfold send, receive, body, procedure, send_body, receive_body, then_,
    except_ConnectionError, bind, sock_connect, sock_getpeername, lift,
    sock_sendall, select_ready, sock_recv, recv_loop, sock_close, ret,
    raise, new_socket;
  cbn [closed peername sent inbox app fst snd].

Ltac go := cbn [closed peername sent inbox app fst snd hd].

(** [send], path by path. *)
Lemma send_paths (dest_addr : string) (payload : bytes) (net : network) :
  send this_ip dest_addr payload net
  = if connect_ok net then
      match pack_message SEND (Some this_ip) (Some dest_addr) payload with
      | Ok message =>
          if readable net then
            let s :=
              {| peername := Some dest_addr; closed := false;
                 sent := [message]; inbox := tl (incoming net) |} in
            match unpack_message (hd [] (incoming net)) with
            | Ok (command, _, _, _) =>
                if command =? ACK then (Ok tt, s) else (Raise AckTimeout, s)
            | Raise e => (Raise e, s)
            | Blocks => (Blocks, s)
            end
          else
            (Raise AckTimeout,
             {| peername := Some dest_addr; closed := false;
                sent := [message]; inbox := incoming net |})
      | Raise e =>
          (Raise e,
           {| peername := Some dest_addr; closed := false;
              sent := []; inbox := incoming net |})
      | Blocks =>
          (Blocks,
           {| peername := Some dest_addr; closed := false;
              sent := []; inbox := incoming net |})
      end
    else (Raise ConnectionError, new_socket).
Proof.
  run_driver.
  destruct (connect_ok net); go; [|reflexivity].
  destruct (pack_message SEND (Some this_ip) (Some dest_addr) payload)
    as [message|e|]; go; try reflexivity.
  destruct (readable net); go; [|reflexivity].
  destruct (incoming net) as [|chunk more]; go.
  - destruct (unpack_message []) as [[[[command src] dest] p]|e|];
      try reflexivity.
    destruct (command =? ACK); reflexivity.
  - destruct (unpack_message chunk) as [[[[command src] dest] p]|e|];
      try reflexivity.
    destruct (command =? ACK); reflexivity.
Qed.

(** X9.  [send] returns normally exactly when the connection was made, the
    request could be packed, the socket became readable in time and the
    first chunk received decodes to an [ACK]; nothing else counts as a
    delivery. *)
Theorem send_success_iff_ACK (dest_addr : string) (payload : bytes)
    (net : network) :
  fst (send this_ip dest_addr payload net) = Ok tt
  <-> (connect_ok net = true
       /\ (exists message,
             pack_message SEND (Some this_ip) (Some dest_addr) payload
             = Ok message)
       /\ readable net = true
       /\ exists src dest reply_payload,
            unpack_message (hd [] (incoming net))
            = Ok (ACK, src, dest, reply_payload)).
Proof.
  rewrite send_paths.
  destruct (connect_ok net);
    [|split; [discriminate|intros (H & _); discriminate H]].
  destruct (pack_message SEND (Some this_ip) (Some dest_addr) payload)
    as [message|e|];
    try (split; [discriminate|intros (_ & (m & H) & _); discriminate H]).
  destruct (readable net);
    [|split; [discriminate|intros (_ & _ & H & _); discriminate H]].
  destruct (unpack_message (hd [] (incoming net)))
    as [[[[command src] dest] p]|e|]; cbn [fst];
    try (split; [discriminate
                |intros (_ & _ & _ & (s & d & q & H)); discriminate H]).
  destruct (Z.eqb_spec command ACK) as [->|Hne]; cbn [fst].
  - split; [|reflexivity]. intros _. repeat split; eauto.
  - split; [discriminate|].
    intros (_ & _ & _ & (s & d & q & H)). congruence.
Qed.

(** X10.  [send] raises [ConnectionError] exactly when the connection
    could not be made, and then nothing has been sent; no later failure
    is reported under that name. *)
Theorem send_ConnectionError_iff (dest_addr : string) (payload : bytes)
    (net : network) :
  (fst (send this_ip dest_addr payload net) = Raise ConnectionError
   <-> connect_ok net = false)
  /\ (connect_ok net = false ->
      sent (snd (send this_ip dest_addr payload net)) = []).
Proof.
  rewrite send_paths.
  destruct (connect_ok net).
  - split; [|discriminate].
    split; [|discriminate]. intros H. exfalso.
    pose proof (pack_message_raises SEND (Some this_ip) (Some dest_addr)
                  payload) as Hp.
    destruct (pack_message SEND (Some this_ip) (Some dest_addr) payload)
      as [message|e|]; cbn [fst] in H.
    + destruct (readable net); [|discriminate H].
      pose proof (unpack_message_raises (hd [] (incoming net))) as Hu.
      destruct (unpack_message (hd [] (incoming net)))
        as [[[[command src] dest] p]|e|]; cbn [fst] in H.
      * destruct (command =? ACK); discriminate H.
      * subst e. discriminate H.
      * discriminate H.
    + injection H as ->. destruct Hp as [Hp|[Hp|Hp]]; discriminate Hp.
    + discriminate H.
  - split; [split; reflexivity|]. intros _. reflexivity.
Qed.

(** X11.  When [select] does not find the socket readable within its three
    seconds, [send] raises [AckTimeout], and by then the request has gone
    out, once: the caller cannot tell a lost request from a lost
    acknowledgment. *)
Theorem send_timeout (dest_addr : string) (payload message : bytes)
    (net : network) :
  connect_ok net = true ->
  pack_message SEND (Some this_ip) (Some dest_addr) payload = Ok message ->
  readable net = false ->
  fst (send this_ip dest_addr payload net) = Raise AckTimeout
  /\ sent (snd (send this_ip dest_addr payload net)) = [message].
Proof.
  intros Hconn Hpack Hready.
  rewrite send_paths, Hconn, Hpack, Hready. split; reflexivity.
Qed.

(** X12.  A destination that [connect] takes but [inet_aton] does not (a
    host name, say) makes [send] fail after the connection is made and
    before anything is sent: the exception is the one [pack_message]
    raised, and the socket is left connected and open. *)
Theorem send_unpackable_destination (dest_addr : string) (payload : bytes)
    (net : network) (e : exn) :
  connect_ok net = true ->
  pack_message SEND (Some this_ip) (Some dest_addr) payload = Raise e ->
  send this_ip dest_addr payload net
  = (Raise e,
     {| peername := Some dest_addr; closed := false;
        sent := []; inbox := incoming net |}).
Proof.
  intros Hconn Hpack.
  rewrite send_paths, Hconn, Hpack. reflexivity.
Qed.

(** X13.  [send] reads the reply with a single [recv]: when the first
    chunk holds fewer than the twelve bytes of a header (the peer closed
    without answering, or the acknowledgment came in pieces), the call
    raises [struct.error] rather than [AckTimeout]. *)
Theorem send_short_reply (dest_addr : string) (payload message : bytes)
    (net : network) :
  connect_ok net = true ->
  pack_message SEND (Some this_ip) (Some dest_addr) payload = Ok message ->
  readable net = true ->
  (List.length (hd [] (incoming net)) < 12)%nat ->
  fst (send this_ip dest_addr payload net) = Raise StructError.
Proof.
  intros Hconn Hpack Hready Hlen.
  rewrite send_paths, Hconn, Hpack, Hready.
  cbv zeta. rewrite unpack_message_short by exact Hlen. reflexivity.
Qed.

(** [receive], path by path. *)
Lemma receive_paths (net : network) :
  let receive_sock message rest is_closed :=
    {| peername := Some this_ip; closed := is_closed;
       sent := [message]; inbox := rest |} in
  receive this_ip net
  = if connect_ok net then
      match pack_message REQ (Some this_ip) None [] with
      | Ok message =>
          if readable net then
            let data := fst (drain_inbox (incoming net) []) in
            let rest := snd (drain_inbox (incoming net) []) in
            match unpack_message data with
            | Ok (command, src_addr, _, payload) =>
                if command =? MSG then
                  if bytes_eqb payload [] && is_None src_addr then
                    (Ok (Some (None, None)), receive_sock message rest true)
                  else
                    (Ok (Some (src_addr, Some payload)),
                     receive_sock message rest true)
                else (Raise ReceiveError, receive_sock message rest true)
            | Raise e => (Raise e, receive_sock message rest false)
            | Blocks => (Blocks, receive_sock message rest false)
            end
          else (Raise ReceiveError,
                receive_sock message (incoming net) true)
      | Raise e =>
          (Raise e,
           {| peername := Some this_ip; closed := false;
              sent := []; inbox := incoming net |})
      | Blocks =>
          (Blocks,
           {| peername := Some this_ip; closed := false;
              sent := []; inbox := incoming net |})
      end
    else (Raise ConnectionError, new_socket).
Proof.
  run_driver. cbv zeta.
  destruct (connect_ok net); go; [|reflexivity].
  destruct (pack_message REQ (Some this_ip) None []) as [message|e|]; go;
    try reflexivity.
  destruct (readable net); go; [|reflexivity].
  destruct (drain_inbox (incoming net) []) as [data rest]; go.
  destruct (unpack_message data) as [[[[command src] dest] p]|e|];
    try reflexivity.
  go. destruct (command =? MSG); [|reflexivity].
  destruct (bytes_eqb p [] && is_None src); reflexivity.
Qed.

(** The loop gathers the chunks in order when none of them is empty. *)
Lemma drain_inbox_concat (chunks : list bytes) (data : bytes) :
  Forall (fun chunk => chunk <> []) chunks ->
  drain_inbox chunks data = (data ++ List.concat chunks, []).
Proof.
  intros Hne. revert data.
  induction Hne as [|chunk more Hchunk _ IH]; intros data.
  - cbn. now rewrite app_nil_r.
  - cbn [drain_inbox List.concat].
    destruct chunk as [|b chunk]; [contradiction|].
    rewrite IH, app_assoc. reflexivity.
Qed.

(** X14.  [receive] reads until the peer closes, so its outcome does not
    depend on how the network cut the reply into chunks: two deliveries
    of the same bytes give the same result. *)
Theorem receive_chunking (net1 net2 : network) :
  connect_ok net1 = connect_ok net2 ->
  readable net1 = readable net2 ->
  Forall (fun chunk => chunk <> []) (incoming net1) ->
  Forall (fun chunk => chunk <> []) (incoming net2) ->
  List.concat (incoming net1) = List.concat (incoming net2) ->
  fst (receive this_ip net1) = fst (receive this_ip net2).
Proof.
  intros Hc Hr H1 H2 Hsame.
  rewrite !receive_paths; cbv zeta; rewrite Hc, Hr.
  rewrite (drain_inbox_concat _ [] H1), (drain_inbox_concat _ [] H2), Hsame.
  cbn [fst snd app].
  destruct (connect_ok net2); [|reflexivity].
  destruct (pack_message REQ (Some this_ip) None []); try reflexivity.
  destruct (readable net2); [|reflexivity].
  cbv zeta.
  destruct (unpack_message (List.concat (incoming net2)))
    as [[[[command src] dest] p]|e|]; try reflexivity;
    destruct (command =? MSG); try reflexivity;
    destruct (bytes_eqb p [] && is_None src); reflexivity.
Qed.

(** X15.  [receive] returns normally exactly when the connection was made,
    the request could be packed, the socket became readable in time and
    all that was read decodes to a [MSG]; what it returns is then always a
    pair, [(None, None)] or the source and the payload, never a bare
    [None]. *)
Theorem receive_success_iff_MSG (net : network)
    (x : option (addr * option bytes)) :
  fst (receive this_ip net) = Ok x
  <-> (connect_ok net = true
       /\ (exists message,
             pack_message REQ (Some this_ip) None [] = Ok message)
       /\ readable net = true
       /\ exists src dest payload,
            unpack_message (fst (drain_inbox (incoming net) []))
            = Ok (MSG, src, dest, payload)
            /\ x = Some (if bytes_eqb payload [] && is_None src
                         then (None, None)
                         else (src, Some payload))).
Proof.
  rewrite receive_paths; cbv zeta.
  destruct (connect_ok net);
    [|split; [discriminate|intros (H & _); discriminate H]].
  destruct (pack_message REQ (Some this_ip) None []) as [message|e|];
    try (split; [discriminate|intros (_ & (m & H) & _); discriminate H]).
  destruct (readable net);
    [|split; [discriminate|intros (_ & _ & H & _); discriminate H]].
  cbv zeta.
  destruct (unpack_message (fst (drain_inbox (incoming net) [])))
    as [[[[command src] dest] p]|e|]; cbn [fst];
    try (split; [discriminate
                |intros (_ & _ & _ & (s & d & q & H & _)); discriminate H]).
  destruct (Z.eqb_spec command MSG) as [->|Hne].
  - split.
    + intros H. repeat split; eauto.
      exists src, dest, p. split; [reflexivity|].
      destruct (bytes_eqb p [] && is_None src); cbn [fst] in H;
        injection H as <-; reflexivity.
    + intros (_ & _ & _ & (s & d & q & H & ->)).
      injection H as <- <- <-.
      destruct (bytes_eqb p [] && is_None src); reflexivity.
  - split; [discriminate|].
    intros (_ & _ & _ & (s & d & q & H & _)). congruence.
Qed.

(** X16.  [receive] raises [ReceiveError] exactly when, the request having
    gone out, no reply came in time or the reply decodes to a command
    other than [MSG]; in both cases it has closed its socket. *)
Theorem receive_ReceiveError_iff (net : network) :
  (fst (receive this_ip net) = Raise ReceiveError
   <-> (connect_ok net = true
        /\ (exists message,
              pack_message REQ (Some this_ip) None [] = Ok message)
        /\ (readable net = false
            \/ exists command src dest payload,
                 unpack_message (fst (drain_inbox (incoming net) []))
                 = Ok (command, src, dest, payload)
                 /\ command <> MSG)))
  /\ (fst (receive this_ip net) = Raise ReceiveError ->
      closed (snd (receive this_ip net)) = true).
Proof.
  rewrite receive_paths; cbv zeta.
  destruct (connect_ok net);
    [|split; [split; [discriminate|intros (H & _); discriminate H]
             |discriminate]].
  pose proof (pack_message_raises REQ (Some this_ip) None []) as Hp.
  destruct (pack_message REQ (Some this_ip) None []) as [message|e|];
    [| |contradiction].
  2:{ split; [split|]; cbn [fst].
      - intros H. injection H as ->.
        destruct Hp as [Hp|[Hp|Hp]]; discriminate Hp.
      - intros (_ & (m & H) & _). discriminate H.
      - intros H. injection H as ->.
        destruct Hp as [Hp|[Hp|Hp]]; discriminate Hp. }
  destruct (readable net).
  2:{ split; [|reflexivity].
      split; [|reflexivity]. intros _. repeat split; eauto. }
  cbv zeta.
  pose proof (unpack_message_raises (fst (drain_inbox (incoming net) [])))
    as Hu.
  destruct (unpack_message (fst (drain_inbox (incoming net) [])))
    as [[[[command src] dest] p]|e|]; [| |contradiction].
  2:{ subst e. split; [split|]; cbn [fst]; try discriminate.
      intros (_ & _ & [H|(c & s & d & q & H & _)]); discriminate H. }
  destruct (Z.eqb_spec command MSG) as [->|Hne].
  - split; [split|].
    + destruct (bytes_eqb p [] && is_None src); discriminate.
    + intros (_ & _ & [H|(c & s & d & q & H & Hc)]); [discriminate H|].
      congruence.
    + destruct (bytes_eqb p [] && is_None src); discriminate.
  - split; [|reflexivity].
    split; [|reflexivity]. intros _.
    split; [reflexivity|]. split; [eauto|]. right.
    exists command, src, dest, p. split; [reflexivity|exact Hne].
Qed.

(** X17.  When what [receive] has read by the time the peer closes is
    shorter than a header (nothing at all, for a relay that closes without
    answering), the call raises [struct.error], not [ReceiveError], and on
    this path it leaves its socket open. *)
Theorem receive_short_reply (net : network) (message : bytes) :
  connect_ok net = true ->
  pack_message REQ (Some this_ip) None [] = Ok message ->
  readable net = true ->
  (List.length (fst (drain_inbox (incoming net) [])) < 12)%nat ->
  fst (receive this_ip net) = Raise StructError
  /\ closed (snd (receive this_ip net)) = false.
Proof.
  intros Hconn Hpack Hready Hlen.
  rewrite receive_paths; cbv zeta. rewrite Hconn, Hpack, Hready.
  rewrite unpack_message_short by exact Hlen.
  split; reflexivity.
Qed.

End ClientFurther.

(** ** The client and the relay together *)

Section EndToEnd.

(** [pack_message] with a canonical source: [unpack_message] gives that
    source back. *)
Lemma pack_message_canonical_src (command : Z) (src dest : addr)
    (payload message : bytes) :
  canonical_addr src ->
  pack_message command src dest payload = Ok message ->
  exists dest',
    unpack_message message = Ok (command, src, dest', payload)
    /\ canonical_addr dest'.
Proof.
  intros Hsrc Hpack.
  destruct (canonical_addr_bytes src Hsrc) as (s0 & s1 & s2 & s3 & Hsb & Hsa).
  unfold pack_message in Hpack. rewrite Hsb in Hpack. cbn [rbind] in Hpack.
  destruct (addr_bytes dest) as [db|e|]; cbn [rbind] in Hpack;
    try discriminate.
  unfold IPCMessage_pack in Hpack.
  destruct (Z.leb_spec 0 command) as [Hlo|Hlo];
    cbn [andb rbind] in Hpack; try discriminate.
  destruct (Z.ltb_spec command (2 ^ 32)) as [Hhi|Hhi];
    cbn [rbind] in Hpack; try discriminate.
  injection Hpack as <-.
  destruct (field_4s_four db) as (d0 & d1 & d2 & d3 & ->).
  destruct (addr_of_bytes_canonical d0 d1 d2 d3) as (dest' & Hd & Hcd).
  exists dest'. split; [|exact Hcd].
  pose proof (be_to_u32_to_be command (conj Hlo Hhi)) as Hbe.
  unfold u32_to_be in Hbe |- *.
  cbn [app field_4s firstn repeat].
  rewrite unpack_message_header, Hsa, Hd, Hbe. reflexivity.
Qed.

(** The relay on a [SEND] as a client packed it. *)
Lemma relay_stores (relay sender dest_addr : string) (payload message : bytes)
    (w : world) :
  canonical_addr (Some sender) ->
  connected (sock w) ->
  pack_message SEND (Some sender) (Some dest_addr) payload = Ok message ->
  exists reply src dest,
    handleInteraction relay message w
    = (Ok tt, {| queue := queue w ++ [(Some sender, payload)];
                 sock := sock_send (sock w) reply |})
    /\ unpack_message reply = Ok (ACK, src, dest, []).
Proof.
  intros Hsender Hconn Hpack.
  destruct (pack_message_canonical_src _ _ _ _ _ Hsender Hpack)
    as (dest' & Hun & Hcd).
  destruct (pack_message_canonical ACK (Some sender) dest' []
              ltac:(unfold ACK; lia) Hsender Hcd)
    as (c0 & c1 & c2 & c3 & s0 & s1 & s2 & s3 & d0 & d1 & d2 & d3
        & Hack & _).
  destruct (pack_message_canonical_src _ _ _ _ _ Hsender Hack)
    as (dest'' & Hun_ack & _).
  destruct w as [q s]. cbn [sock queue] in *.
  eexists _, _, _. split; [|exact Hun_ack].
  rewrite (handleInteraction_decoded relay _ _ _ _ _ q s Hconn Hun).
  cbn [Z.eqb SEND].
  unfold bind at 1. unfold queue_put at 1. cbn [sock queue].
  unfold bind at 1. unfold lift at 1. rewrite Hack.
  apply sendall_connected. exact Hconn.
Qed.

(** The relay on a [REQ] as a client packed it, with an entry waiting. *)
Lemma relay_forwards (relay client : string) (request ip_bytes : bytes)
    (original_source : addr) (stored : bytes) (rest : Queue) (s : socket) :
  canonical_addr original_source ->
  connected s ->
  inet_aton relay = Ok ip_bytes ->
  pack_message REQ (Some client) None [] = Ok request ->
  exists reply dest,
    handleInteraction relay request
      {| queue := (original_source, stored) :: rest; sock := s |}
    = (Ok tt, {| queue := rest; sock := sock_send s reply |})
    /\ unpack_message reply = Ok (MSG, original_source, dest, stored)
    /\ reply <> [].
Proof.
  intros Hsrc Hconn Hip Hpack.
  destruct (pack_message_unpacks _ _ _ _ _ Hpack) as (src' & dest' & Hun).
  assert (Hmsg : exists reply,
             pack_message MSG original_source (Some relay) stored
             = Ok reply).
  { destruct (canonical_addr_bytes original_source Hsrc)
      as (s0 & s1 & s2 & s3 & Hsb & _).
    unfold pack_message. rewrite Hsb. cbn [rbind addr_bytes].
    rewrite Hip. cbn [rbind]. eexists. reflexivity. }
  destruct Hmsg as [reply Hmsg].
  destruct (pack_message_canonical_src _ _ _ _ _ Hsrc Hmsg)
    as (dest & Hun_msg & _).
  exists reply, dest. split; [|split; [exact Hun_msg|]].
  - rewrite (handleInteraction_decoded relay _ _ _ _ _ _ s Hconn Hun).
    cbn [Z.eqb REQ SEND Pos.eqb].
    unfold bind at 1. unfold queue_empty at 1.
    cbn [queue Queue_empty negb].
    unfold bind at 1. unfold queue_get at 1. cbn [queue Queue_get sock].
    unfold bind at 1. unfold lift at 1. rewrite Hmsg.
    apply sendall_connected. exact Hconn.
  - intros ->. discriminate Hun_msg.
Qed.

(** What [send] and [receive] transmit. *)
Lemma send_transmits (sender dest_addr : string) (payload message : bytes)
    (net : network) :
  pack_message SEND (Some sender) (Some dest_addr) payload = Ok message ->
  connect_ok net = true ->
  sent (snd (send sender dest_addr payload net)) = [message].
Proof.
  intros Hpack Hconn. rewrite send_paths, Hconn, Hpack.
  destruct (readable net); [|reflexivity].
  cbv zeta.
  destruct (unpack_message (hd [] (incoming net)))
    as [[[[command src] dest] p]|e|]; try reflexivity.
  destruct (command =? ACK); reflexivity.
Qed.

Lemma receive_transmits (client : string) (request : bytes) (net : network) :
  pack_message REQ (Some client) None [] = Ok request ->
  connect_ok net = true ->
  sent (snd (receive client net)) = [request].
Proof.
  intros Hpack Hconn. rewrite receive_paths; cbv zeta.
  rewrite Hconn, Hpack.
  destruct (readable net); [|reflexivity].
  destruct (unpack_message (fst (drain_inbox (incoming net) [])))
    as [[[[command src] dest] p]|e|]; try reflexivity.
  destruct (command =? MSG); [|reflexivity].
  destruct (bytes_eqb p [] && is_None src); reflexivity.
Qed.

(** [receive] on a relay that answers with [reply] and closes. *)
Lemma receive_answered (client : string) (request reply : bytes)
    (src dest : addr) (payload : bytes) :
  pack_message REQ (Some client) None [] = Ok request ->
  reply <> [] ->
  unpack_message reply = Ok (MSG, src, dest, payload) ->
  fst (receive client (answering reply))
  = Ok (Some (if bytes_eqb payload [] && is_None src
              then (None, None)
              else (src, Some payload))).
Proof.
  intros Hpack Hne Hun. rewrite receive_paths; cbv zeta.
  cbn [answering connect_ok readable incoming]. rewrite Hpack.
  destruct reply as [|b reply]; [contradiction|].
  cbn [drain_inbox app fst]. rewrite Hun.
  cbn [Z.eqb MSG Pos.eqb].
  destruct (bytes_eqb payload [] && is_None src); reflexivity.
Qed.

(** X18.  A [send] and the relay fit together: the one message [send]
    transmits is stored by the relay as (sender, payload) at the tail of
    the mailbox, and the reply the relay sends is one on which [send]
    returns normally. *)
Theorem send_stored_and_acknowledged (relay sender dest_addr : string)
    (payload message : bytes) (w : world) :
  canonical_addr (Some sender) ->
  connected (sock w) ->
  pack_message SEND (Some sender) (Some dest_addr) payload = Ok message ->
  exists reply,
    (forall net, connect_ok net = true ->
       sent (snd (send sender dest_addr payload net)) = [message])
    /\ handleInteraction relay message w
       = (Ok tt, {| queue := queue w ++ [(Some sender, payload)];
                    sock := sock_send (sock w) reply |})
    /\ fst (send sender dest_addr payload (answering reply)) = Ok tt.
Proof.
  intros Hsender Hconn Hpack.
  destruct (relay_stores relay _ _ _ _ w Hsender Hconn Hpack)
    as (reply & src & dest & Hrun & Hack).
  exists reply. split; [|split; [exact Hrun|]].
  - intros net. apply send_transmits. exact Hpack.
  - rewrite send_paths.
    cbn [answering connect_ok readable incoming hd]. rewrite Hpack.
    cbv zeta. rewrite Hack. reflexivity.
Qed.

(** X19.  A [receive] and the relay fit together: the one message
    [receive] transmits makes the relay take the head entry
    (source, payload) off the mailbox, and on the relay's reply [receive]
    returns that source and payload; except that an entry with no source
    and an empty payload comes out as [(None, None)], which is also what
    an empty mailbox gives. *)
Theorem mailbox_head_received (relay client : string)
    (request ip_bytes : bytes) (original_source : addr) (stored : bytes)
    (rest : Queue) (s : socket) :
  canonical_addr original_source ->
  connected s ->
  inet_aton relay = Ok ip_bytes ->
  pack_message REQ (Some client) None [] = Ok request ->
  exists reply,
    (forall net, connect_ok net = true ->
       sent (snd (receive client net)) = [request])
    /\ handleInteraction relay request
         {| queue := (original_source, stored) :: rest; sock := s |}
       = (Ok tt, {| queue := rest; sock := sock_send s reply |})
    /\ fst (receive client (answering reply))
       = Ok (Some (if bytes_eqb stored [] && is_None original_source
                   then (None, None)
                   else (original_source, Some stored))).
Proof.
  intros Hsrc Hconn Hip Hpack.
  destruct (relay_forwards relay client request ip_bytes original_source
              stored rest s Hsrc Hconn Hip Hpack)
    as (reply & dest & Hrun & Hun & Hne).
  exists reply. split; [|split; [exact Hrun|]].
  - intros net. apply receive_transmits. exact Hpack.
  - exact (receive_answered client request reply _ _ _ Hpack Hne Hun).
Qed.

(** X20.  Store and forward: what one client sends is what the next
    [receive] returns.  The relay, its mailbox empty, handles the message
    of [send(dest_addr, payload)] from [sender] and then the message of a
    [receive()]; the [send] is acknowledged, the [receive] returns
    [(sender, payload)], payload intact even when it is empty, and the
    mailbox is empty again. *)
Theorem store_and_forward (relay sender dest_addr client : string)
    (payload message request ip_bytes : bytes) (s1 s2 : socket) :
  canonical_addr (Some sender) ->
  connected s1 -> connected s2 ->
  inet_aton relay = Ok ip_bytes ->
  pack_message SEND (Some sender) (Some dest_addr) payload = Ok message ->
  pack_message REQ (Some client) None [] = Ok request ->
  exists ack reply,
    handleInteraction relay message {| queue := []; sock := s1 |}
    = (Ok tt, {| queue := [(Some sender, payload)];
                 sock := sock_send s1 ack |})
    /\ fst (send sender dest_addr payload (answering ack)) = Ok tt
    /\ handleInteraction relay request
         {| queue := [(Some sender, payload)]; sock := s2 |}
       = (Ok tt, {| queue := []; sock := sock_send s2 reply |})
    /\ fst (receive client (answering reply))
       = Ok (Some (Some sender, Some payload)).
Proof.
  intros Hsender Hc1 Hc2 Hip Hpack Hreq.
  destruct (relay_stores relay _ _ _ _ {| queue := []; sock := s1 |}
              Hsender Hc1 Hpack)
    as (ack & src & dest & Hrun1 & Hack).
  destruct (relay_forwards relay client request ip_bytes (Some sender)
              payload [] s2 Hsender Hc2 Hip Hreq)
    as (reply & dest2 & Hrun2 & Hun & Hne).
  exists ack, reply.
  split; [exact Hrun1|]. split; [|split; [exact Hrun2|]].
  - rewrite send_paths.
    cbn [answering connect_ok readable incoming hd]. rewrite Hpack.
    cbv zeta. rewrite Hack. reflexivity.
  - rewrite (receive_answered client request reply _ _ _ Hreq Hne Hun).
    cbn [is_None]. now rewrite andb_false_r.
Qed.

End EndToEnd.

(** ** The event loop *)

Section EventLoop.

Variable this_ip : string.

Lemma keeps_tbind {S A B} (P : S -> Prop) (m : task S A)
    (f : A -> task S B) :
  keeps P m -> (forall a, keeps P (f a)) -> keeps P (tbind m f).
Proof.
  intros Hm Hf s Hs. unfold tbind.
  pose proof (Hm s Hs) as Hm'.
  destruct (m s) as [[a|e|] s']; cbn [snd] in *; auto.
  apply Hf. exact Hm'.
Qed.

Lemma keeps_tret {S A} (P : S -> Prop) (a : A) : keeps P (tret a).
Proof. intros s Hs. exact Hs. Qed.

Lemma keeps_except_Exception {S} (P : S -> Prop) (t : task S unit) :
  keeps P t -> keeps P (except_Exception t).
Proof.
  intros Ht s Hs. unfold except_Exception.
  pose proof (Ht s Hs) as Ht'.
  destruct (t s) as [[a|[e| |]|] s']; exact Ht'.
Qed.

Lemma keeps_except_OSError {S} (P : S -> Prop) (t : task S unit) :
  keeps P t -> keeps P (except_OSError t).
Proof.
  intros Ht s Hs. unfold except_OSError.
  pose proof (Ht s Hs) as Ht'.
  destruct (t s) as [[a|[[]| |]|] s']; exact Ht'.
Qed.

Lemma uninterrupted_tbind {S A B} (m : task S A) (f : A -> task S B) :
  uninterrupted m -> (forall a, uninterrupted (f a)) ->
  uninterrupted (tbind m f).
Proof.
  intros Hm Hf s. unfold tbind.
  pose proof (Hm s) as Hm'.
  destruct (m s) as [[a|e|] s']; cbn [fst] in *.
  - apply Hf.
  - intros H. apply Hm'. injection H as ->. reflexivity.
  - discriminate.
Qed.

Lemma outcome_of_uninterrupted {A} (r : result A) :
  outcome_of r <> Failed KeyboardInterrupt.
Proof. destruct r; discriminate. Qed.

Lemma on_conn_sock_uninterrupted {A} (p : prog socket A) :
  uninterrupted (on_conn_sock p).
Proof.
  intros st. unfold on_conn_sock.
  destruct (p (conn_sock (conn st))) as [r s'].
  apply outcome_of_uninterrupted.
Qed.

Lemma on_world_uninterrupted {A} (p : prog world A) :
  uninterrupted (on_world p).
Proof.
  intros st. unfold on_world.
  destruct (p _) as [r w'].
  apply outcome_of_uninterrupted.
Qed.

Lemma sel_unregister_uninterrupted : uninterrupted sel_unregister.
Proof.
  intros st. unfold sel_unregister.
  destruct (registered (conn st)); [discriminate|].
  destruct (closed (conn_sock (conn st))); discriminate.
Qed.

Lemma except_Exception_uninterrupted {S} (t : task S unit) :
  uninterrupted t -> uninterrupted (except_Exception t).
Proof.
  intros Ht s. unfold except_Exception. pose proof (Ht s) as Ht'.
  destruct (t s) as [[a|[e| |]|] s']; cbn [fst] in *;
    try discriminate; auto.
Qed.

Lemma except_OSError_uninterrupted {S} (t : task S unit) :
  uninterrupted t -> uninterrupted (except_OSError t).
Proof.
  intros Ht s. unfold except_OSError. pose proof (Ht s) as Ht'.
  destruct (t s) as [[a|[[]| |]|] s']; cbn [fst] in *;
    try discriminate; auto.
Qed.

Lemma unregister_and_close_uninterrupted : uninterrupted unregister_and_close.
Proof.
  unfold unregister_and_close.
  apply uninterrupted_tbind.
  - apply except_Exception_uninterrupted, sel_unregister_uninterrupted.
  - intros _. apply except_OSError_uninterrupted, on_conn_sock_uninterrupted.
Qed.

Lemma service_connection_uninterrupted (mask : Z) :
  uninterrupted (service_connection this_ip mask).
Proof.
  unfold service_connection.
  apply uninterrupted_tbind.
  - destruct (truthy (Z.land mask EVENT_READ)); [|intros s; discriminate].
    apply uninterrupted_tbind; [apply on_conn_sock_uninterrupted|].
    intros recv_data. destruct (nonempty recv_data).
    + intros s. discriminate.
    + apply uninterrupted_tbind; [apply sel_unregister_uninterrupted|].
      intros _. apply on_conn_sock_uninterrupted.
  - intros _.
    destruct (truthy (Z.land mask EVENT_WRITE)); [|intros s; discriminate].
    apply uninterrupted_tbind; [intros s; discriminate|].
    intros buffered. destruct (nonempty buffered); [|intros s; discriminate].
    apply uninterrupted_tbind; [apply on_world_uninterrupted|].
    intros _. apply unregister_and_close_uninterrupted.
Qed.

(** X21.  [unregister_and_close] never fails, whatever state the socket
    is in (registered or not, open or closed): afterwards the socket is
    unregistered and closed, and the mailbox and the buffer are as they
    were. *)
Theorem unregister_and_close_never_fails (st : service) :
  fst (unregister_and_close st) = Done tt
  /\ registered (conn (snd (unregister_and_close st))) = false
  /\ closed (conn_sock (conn (snd (unregister_and_close st)))) = true
  /\ mailbox (snd (unregister_and_close st)) = mailbox st
  /\ outb (conn (snd (unregister_and_close st))) = outb (conn st)
  /\ sent (conn_sock (conn (snd (unregister_and_close st))))
     = sent (conn_sock (conn st)).
Proof.
  destruct st as [q [s ob reg]].
  unfold unregister_and_close, tbind, except_Exception, except_OSError,
    sel_unregister, on_conn_sock, sock_close.
  cbn [conn registered conn_sock mailbox outb].
  destruct reg; [repeat split|].
  destruct (closed s) eqn:Hc; repeat split.
Qed.

(** [handleInteraction] on a message of twelve bytes or more. *)
Lemma handleInteraction_ok (message ip_bytes : bytes) (w : world) :
  connected (sock w) ->
  mailbox_wf (queue w) ->
  inet_aton this_ip = Ok ip_bytes ->
  (12 <= List.length message)%nat ->
  fst (handleInteraction this_ip message w) = Ok tt.
Proof.
  intros Hconn Hwf Hip Hlen. destruct w as [q s]. cbn [sock queue] in *.
  destruct (header_split message Hlen)
    as (c0 & c1 & c2 & c3 & s0 & s1 & s2 & s3 & d0 & d1 & d2 & d3 & Hm).
  destruct (addr_of_bytes_canonical s0 s1 s2 s3) as (src & Hs & Hcs).
  destruct (addr_of_bytes_canonical d0 d1 d2 d3) as (dest & Hd & Hcd).
  assert (Hun : unpack_message message
                = Ok (be_to_u32 c0 c1 c2 c3, src, dest, skipn 12 message)).
  { rewrite Hm at 1. rewrite unpack_message_header, Hs, Hd. reflexivity. }
  refine (eq_trans
            (f_equal fst
               (handleInteraction_decoded this_ip _ _ _ _ _ q s Hconn Hun))
            _).
  destruct (be_to_u32 c0 c1 c2 c3 =? SEND).
  - destruct (pack_message_canonical ACK src dest []
                ltac:(unfold ACK; lia) Hcs Hcd)
      as (a0 & a1 & a2 & a3 & b0 & b1 & b2 & b3 & e0 & e1 & e2 & e3
          & Hack & _).
    unfold bind at 1. unfold queue_put at 1. cbn [sock queue].
    unfold bind at 1. unfold lift at 1. rewrite Hack.
    rewrite sendall_connected by exact Hconn. reflexivity.
  - destruct (be_to_u32 c0 c1 c2 c3 =? REQ); [|reflexivity].
    unfold bind at 1. unfold queue_empty at 1. cbn [queue].
    destruct q as [|[original_source stored] rest]; cbn [Queue_empty negb].
    + unfold bind at 1. unfold lift at 1. rewrite pack_nothing_available.
      rewrite sendall_connected by exact Hconn. reflexivity.
    + inversion Hwf as [|e q' Hsrc _]; subst. cbn [fst] in Hsrc.
      destruct (canonical_addr_bytes original_source Hsrc)
        as (b0 & b1 & b2 & b3 & Hsb & _).
      unfold bind at 1. unfold queue_get at 1. cbn [queue Queue_get sock].
      unfold bind at 1. unfold lift at 1.
      unfold pack_message. rewrite Hsb. cbn [rbind addr_bytes].
      rewrite Hip. cbn [rbind IPCMessage_pack Z.leb Z.ltb Z.compare MSG
                          Z.pow Z.pow_pos Pos.iter Z.mul Pos.mul
                          Pos.compare Pos.compare_cont andb].
      rewrite sendall_connected by exact Hconn. reflexivity.
Qed.

(** X22.  On a connected socket, with a well-formed mailbox and a relay
    address [inet_aton] accepts, [handleInteraction] returns normally on
    every message of twelve bytes or more, whatever its command: an
    undersized message is the only input that makes it raise. *)
Theorem handleInteraction_returns (message ip_bytes : bytes) (w : world) :
  connected (sock w) ->
  mailbox_wf (queue w) ->
  inet_aton this_ip = Ok ip_bytes ->
  (12 <= List.length message)%nat ->
  fst (handleInteraction this_ip message w) = Ok tt.
Proof. apply handleInteraction_ok. Qed.

Lemma nonempty_app_r (buffered chunk : bytes) :
  chunk <> [] -> nonempty (buffered ++ chunk) = true.
Proof.
  intros Hne. destruct buffered; [|reflexivity].
  destruct chunk; [contradiction|reflexivity].
Qed.

(** The read half of [service_connection] when a chunk came in. *)
Lemma read_chunk (q : Queue) (peer : string) (sent_before : list bytes)
    (buffered chunk : bytes) (more : list bytes) (reg : bool) :
  chunk <> [] ->
  tbind (on_conn_sock sock_recv)
    (fun recv_data =>
       if nonempty recv_data then append_outb recv_data
       else tbind sel_unregister (fun _ => on_conn_sock sock_close))
    {| mailbox := q;
       conn := {| conn_sock := {| peername := Some peer; closed := false;
                                  sent := sent_before;
                                  inbox := chunk :: more |};
                  outb := buffered; registered := reg |} |}
  = (Done tt,
     {| mailbox := q;
        conn := {| conn_sock := {| peername := Some peer; closed := false;
                                   sent := sent_before; inbox := more |};
                   outb := buffered ++ chunk; registered := reg |} |}).
Proof.
  intros Hne. destruct chunk as [|b chunk]; [contradiction|]. reflexivity.
Qed.

(** X23.  One exchange for each connection.  When a chunk arrives on a
    registered connection that is ready for reading and writing, and the
    buffer then holds twelve bytes or more, [service_connection] hands
    the buffer to [handleInteraction] as a complete message, then
    unregisters and closes the socket: whatever the peer sends after that
    chunk is never read. *)
Theorem service_connection_one_exchange (mask : Z) (q : Queue)
    (peer : string) (sent_before : list bytes) (buffered chunk : bytes)
    (more : list bytes) (ip_bytes : bytes) :
  truthy (Z.land mask EVENT_READ) = true ->
  truthy (Z.land mask EVENT_WRITE) = true ->
  chunk <> [] ->
  (12 <= List.length (buffered ++ chunk))%nat ->
  mailbox_wf q ->
  inet_aton this_ip = Ok ip_bytes ->
  let handled :=
    snd (handleInteraction this_ip (buffered ++ chunk)
           {| queue := q;
              sock := {| peername := Some peer; closed := false;
                         sent := sent_before; inbox := more |} |}) in
  service_connection this_ip mask
    {| mailbox := q;
       conn := {| conn_sock := {| peername := Some peer; closed := false;
                                  sent := sent_before;
                                  inbox := chunk :: more |};
                  outb := buffered; registered := true |} |}
  = (Done tt,
     {| mailbox := queue handled;
        conn := {| conn_sock := {| peername := Some peer; closed := true;
                                   sent := sent (sock handled);
                                   inbox := more |};
                   outb := buffered ++ chunk; registered := false |} |}).
Proof.
  intros Hread Hwrite Hne Hlen Hwf Hip. cbv zeta.
  set (s := {| peername := Some peer; closed := false;
               sent := sent_before; inbox := more |}).
  assert (Hconn : connected s) by (split; [reflexivity|discriminate]).
  pose proof (handleInteraction_ok (buffered ++ chunk) ip_bytes
                {| queue := q; sock := s |} Hconn Hwf Hip Hlen) as Hok.
  destruct (handleInteraction_effect this_ip (buffered ++ chunk)
              {| queue := q; sock := s |}) as (r & w' & Hrun & _ & Hs).
  rewrite Hrun in Hok |- *. cbn [fst snd] in Hok |- *. subst r.
  unfold service_connection. rewrite Hread, Hwrite.
  unfold tbind at 1. rewrite (read_chunk _ _ _ _ _ _ _ Hne).
  unfold tbind at 1. unfold get_outb at 1. cbn [outb conn].
  rewrite (nonempty_app_r _ _ Hne).
  unfold tbind at 1. unfold on_world at 1.
  cbn [mailbox conn conn_sock outb registered]. fold s. rewrite Hrun.
  cbn [outcome_of].
  unfold unregister_and_close, tbind, except_Exception, except_OSError,
    sel_unregister, on_conn_sock, sock_close.
  cbn [conn registered conn_sock mailbox outb].
  destruct w' as [q' s']. cbn [sock queue] in *.
  destruct Hs as [->|[reply ->]]; reflexivity.
Qed.

(** X24.  A first chunk that leaves the buffer shorter than a header, on
    a connection ready for reading and writing, makes
    [service_connection] raise [struct.error]: the bytes stay in the
    buffer, the socket stays registered and open, and the mailbox is
    untouched. *)
Theorem service_connection_short_chunk (mask : Z) (q : Queue)
    (peer : string) (sent_before : list bytes) (buffered chunk : bytes)
    (more : list bytes) :
  truthy (Z.land mask EVENT_READ) = true ->
  truthy (Z.land mask EVENT_WRITE) = true ->
  chunk <> [] ->
  (List.length (buffered ++ chunk) < 12)%nat ->
  service_connection this_ip mask
    {| mailbox := q;
       conn := {| conn_sock := {| peername := Some peer; closed := false;
                                  sent := sent_before;
                                  inbox := chunk :: more |};
                  outb := buffered; registered := true |} |}
  = (Failed (Lib StructError),
     {| mailbox := q;
        conn := {| conn_sock := {| peername := Some peer; closed := false;
                                   sent := sent_before; inbox := more |};
                   outb := buffered ++ chunk; registered := true |} |}).
Proof.
  intros Hread Hwrite Hne Hlen.
  set (s := {| peername := Some peer; closed := false;
               sent := sent_before; inbox := more |}).
  assert (Hconn : connected s) by (split; [reflexivity|discriminate]).
  pose proof (handleInteraction_short this_ip (buffered ++ chunk)
                q s Hconn Hlen) as Hrun.
  unfold service_connection. rewrite Hread, Hwrite.
  unfold tbind at 1. rewrite (read_chunk _ _ _ _ _ _ _ Hne).
  unfold tbind at 1. unfold get_outb at 1. cbn [outb conn].
  rewrite (nonempty_app_r _ _ Hne).
  unfold tbind at 1. unfold on_world at 1.
  cbn [mailbox conn conn_sock outb registered]. fold s. rewrite Hrun.
  reflexivity.
Qed.

(** X25.  When the peer has closed and its bytes are still in the buffer
    (they came while the socket was not reported writable), servicing
    the connection for reading and writing unregisters and closes the
    socket first and then calls [handleInteraction] on the closed socket,
    which raises [OSError]: the buffered message is never handled and the
    mailbox is as it was. *)
Theorem service_connection_closed_with_buffer (mask : Z) (q : Queue)
    (peer : string) (sent_before : list bytes) (buffered : bytes) :
  truthy (Z.land mask EVENT_READ) = true ->
  truthy (Z.land mask EVENT_WRITE) = true ->
  buffered <> [] ->
  service_connection this_ip mask
    {| mailbox := q;
       conn := {| conn_sock := {| peername := Some peer; closed := false;
                                  sent := sent_before; inbox := [] |};
                  outb := buffered; registered := true |} |}
  = (Failed (Lib OSError),
     {| mailbox := q;
        conn := {| conn_sock := {| peername := Some peer; closed := true;
                                   sent := sent_before; inbox := [] |};
                   outb := buffered; registered := false |} |}).
Proof.
  intros Hread Hwrite Hne.
  unfold service_connection. rewrite Hread, Hwrite.
  destruct buffered as [|b buffered]; [contradiction|].
  reflexivity.
Qed.

(** The payload is appended to a header that does not depend on it. *)
Lemma pack_message_payload_app (command : Z) (src dest : addr)
    (payload more message : bytes) :
  pack_message command src dest payload = Ok message ->
  pack_message command src dest (payload ++ more) = Ok (message ++ more).
Proof.
  unfold pack_message.
  destruct (addr_bytes src) as [sb|e|]; cbn [rbind]; try discriminate.
  destruct (addr_bytes dest) as [db|e|]; cbn [rbind]; try discriminate.
  destruct (IPCMessage_pack command sb db) as [header|e|]; cbn [rbind];
    try discriminate.
  intros H. injection H as <-. now rewrite app_assoc.
Qed.

(** X26.  Completeness is inferred, not framed.  When a [SEND] reaches a
    connection ready for reading and writing in two chunks, the first
    holding the header and the part [p1] of the payload, the relay
    stores [(sender, p1)], acknowledges, and closes: the rest of the
    payload is never read, and the sender is told the message went
    through. *)
Theorem service_connection_truncates (mask : Z) (q : Queue)
    (peer sender dest_addr : string) (sent_before : list bytes)
    (p1 p2 first : bytes) (more : list bytes) :
  truthy (Z.land mask EVENT_READ) = true ->
  truthy (Z.land mask EVENT_WRITE) = true ->
  canonical_addr (Some sender) ->
  pack_message SEND (Some sender) (Some dest_addr) p1 = Ok first ->
  pack_message SEND (Some sender) (Some dest_addr) (p1 ++ p2)
  = Ok (first ++ p2)
  /\ exists ack src dest,
       unpack_message ack = Ok (ACK, src, dest, [])
       /\ service_connection this_ip mask
            {| mailbox := q;
               conn := {| conn_sock := {| peername := Some peer;
                                          closed := false;
                                          sent := sent_before;
                                          inbox := first :: p2 :: more |};
                          outb := []; registered := true |} |}
          = (Done tt,
             {| mailbox := q ++ [(Some sender, p1)];
                conn := {| conn_sock := {| peername := Some peer;
                                           closed := true;
                                           sent := sent_before ++ [ack];
                                           inbox := p2 :: more |};
                           outb := first; registered := false |} |}).
Proof.
  intros Hread Hwrite Hsender Hpack.
  split; [exact (pack_message_payload_app _ _ _ _ _ _ Hpack)|].
  set (s := {| peername := Some peer; closed := false;
               sent := sent_before; inbox := p2 :: more |}).
  assert (Hconn : connected s) by (split; [reflexivity|discriminate]).
  destruct (relay_stores this_ip sender dest_addr p1 first
              {| queue := q; sock := s |} Hsender Hconn Hpack)
    as (ack & src & dest & Hrun & Hack).
  exists ack, src, dest. split; [exact Hack|].
  assert (Hne : first <> []).
  { destruct (pack_message_inv _ _ _ _ _ Hpack)
      as (_ & s0 & s1 & s2 & s3 & d0 & d1 & d2 & d3 & ->).
    discriminate. }
  unfold service_connection. rewrite Hread, Hwrite.
  unfold tbind at 1. rewrite (read_chunk _ _ _ _ _ _ _ Hne).
  unfold tbind at 1. unfold get_outb at 1. cbn [outb conn app].
  destruct first as [|b first]; [contradiction|]. cbn [nonempty].
  unfold tbind at 1. unfold on_world at 1.
  cbn [mailbox conn conn_sock outb registered]. fold s. rewrite Hrun.
  reflexivity.
Qed.

(** [service_connection] on the connection a key stands for. *)
Lemma service_key_at (key : nat) (mask : Z) (srv : server) (c : connection) :
  nth_error (conns srv) key = Some c ->
  service_key this_ip key mask srv
  = (fst (service_connection this_ip mask
            {| mailbox := srv_queue srv; conn := c |}),
     {| srv_queue :=
          mailbox (snd (service_connection this_ip mask
                          {| mailbox := srv_queue srv; conn := c |}));
        conns :=
          set_nth key
            (conn (snd (service_connection this_ip mask
                          {| mailbox := srv_queue srv; conn := c |})))
            (conns srv);
        sel_closed := sel_closed srv |}).
Proof.
  intros Hc. unfold service_key. rewrite Hc.
  destruct (service_connection this_ip mask _) as [r st]. reflexivity.
Qed.

(** X27.  A client that delivers fewer than twelve bytes stops the relay.
    The [struct.error] of its undersized message is caught nowhere: it
    leaves [service_connection], the [for] loop and [run], whatever
    other events and wakeups were still to come, with only the selector
    closed on the way out. *)
Theorem run_stopped_by_short_chunk (key : nat) (mask : Z) (srv : server)
    (peer : string) (sent_before : list bytes) (buffered chunk : bytes)
    (more : list bytes) (events : list event) (wakeups : list wakeup) :
  nth_error (conns srv) key
  = Some {| conn_sock := {| peername := Some peer; closed := false;
                            sent := sent_before; inbox := chunk :: more |};
            outb := buffered; registered := true |} ->
  truthy (Z.land mask EVENT_READ) = true ->
  truthy (Z.land mask EVENT_WRITE) = true ->
  chunk <> [] ->
  (List.length (buffered ++ chunk) < 12)%nat ->
  run this_ip true (Selected (Ready key mask :: events) :: wakeups) srv
  = (Failed (Lib StructError),
     {| srv_queue := srv_queue srv;
        conns :=
          set_nth key
            {| conn_sock := {| peername := Some peer; closed := false;
                               sent := sent_before; inbox := more |};
               outb := buffered ++ chunk; registered := true |}
            (conns srv);
        sel_closed := true |}).
Proof.
  intros Hkey Hread Hwrite Hne Hlen.
  set (s := {| peername := Some peer; closed := false;
               sent := sent_before; inbox := more |}).
  assert (Hconn : connected s) by (split; [reflexivity|discriminate]).
  assert (Hsvc :
    service_connection this_ip mask
      {| mailbox := srv_queue srv;
         conn := {| conn_sock := {| peername := Some peer; closed := false;
                                    sent := sent_before;
                                    inbox := chunk :: more |};
                    outb := buffered; registered := true |} |}
    = (Failed (Lib StructError),
       {| mailbox := srv_queue srv;
          conn := {| conn_sock := s; outb := buffered ++ chunk;
                     registered := true |} |})).
  { pose proof (handleInteraction_short this_ip (buffered ++ chunk)
                  (srv_queue srv) s Hconn Hlen) as Hrun.
    unfold service_connection. rewrite Hread, Hwrite.
    unfold tbind at 1. rewrite (read_chunk _ _ _ _ _ _ _ Hne).
    unfold tbind at 1. unfold get_outb at 1. cbn [outb conn].
    rewrite (nonempty_app_r _ _ Hne).
    unfold tbind at 1. unfold on_world at 1.
    cbn [mailbox conn conn_sock outb registered]. fold s. rewrite Hrun.
    reflexivity. }
  unfold run, finally_close, except_KeyboardInterrupt.
  cbn [event_loop for_events]. unfold tbind.
  rewrite (service_key_at key mask srv _ Hkey), Hsvc.
  reflexivity.
Qed.

Lemma service_connection_keeps_wf (mask : Z) :
  keeps (fun st => mailbox_wf (mailbox st)) (service_connection this_ip mask).
Proof.
  assert (Hsock : forall A (p : prog socket A),
             keeps (fun st => mailbox_wf (mailbox st)) (on_conn_sock p)).
  { intros A p st Hst. unfold on_conn_sock.
    destruct (p (conn_sock (conn st))) as [r s']. exact Hst. }
  assert (Hunreg : keeps (fun st => mailbox_wf (mailbox st)) sel_unregister).
  { intros st Hst. unfold sel_unregister.
    destruct (registered (conn st)); [exact Hst|].
    destruct (closed (conn_sock (conn st))); exact Hst. }
  unfold service_connection.
  apply keeps_tbind.
  - destruct (truthy (Z.land mask EVENT_READ)); [|apply keeps_tret].
    apply keeps_tbind; [apply Hsock|].
    intros recv_data. destruct (nonempty recv_data).
    + intros st Hst. exact Hst.
    + apply keeps_tbind; [exact Hunreg|]. intros _. apply Hsock.
  - intros _.
    destruct (truthy (Z.land mask EVENT_WRITE)); [|apply keeps_tret].
    apply keeps_tbind; [intros st Hst; exact Hst|].
    intros buffered. destruct (nonempty buffered); [|apply keeps_tret].
    apply keeps_tbind.
    + intros st Hst. unfold on_world.
      pose proof (handleInteraction_mailbox_wf this_ip buffered
                    {| queue := mailbox st; sock := conn_sock (conn st) |}
                    Hst) as Hwf.
      destruct (handleInteraction this_ip buffered _) as [r w'].
      exact Hwf.
    + intros _. unfold unregister_and_close.
      apply keeps_tbind.
      * apply keeps_except_Exception. exact Hunreg.
      * intros _. apply keeps_except_OSError. apply Hsock.
Qed.

Lemma for_events_keeps_wf (events : list event) :
  keeps (fun srv => mailbox_wf (srv_queue srv)) (for_events this_ip events).
Proof.
  induction events as [|[peer chunks|key mask] more IH];
    cbn [for_events].
  - apply keeps_tret.
  - apply keeps_tbind; [|intros _; exact IH].
    intros srv Hsrv. exact Hsrv.
  - apply keeps_tbind; [|intros _; exact IH].
    intros srv Hsrv. unfold service_key.
    destruct (nth_error (conns srv) key) as [c|]; [|exact Hsrv].
    pose proof (service_connection_keeps_wf mask
                  {| mailbox := srv_queue srv; conn := c |} Hsrv) as Hwf.
    destruct (service_connection this_ip mask _) as [r st]. exact Hwf.
Qed.

Lemma event_loop_keeps_wf (wakeups : list wakeup) :
  keeps (fun srv => mailbox_wf (srv_queue srv)) (event_loop this_ip wakeups).
Proof.
  induction wakeups as [|[events|] more IH]; cbn [event_loop].
  - intros srv Hsrv. exact Hsrv.
  - apply keeps_tbind; [apply for_events_keeps_wf|intros _; exact IH].
  - intros srv Hsrv. exact Hsrv.
Qed.

(** X28.  Whatever the clients send and however the loop ends, the
    mailbox of the server stays well formed: every source stored is
    absent or a canonical dotted quad.  It holds in particular for every
    run of a server started with [Server(host, port)]. *)
Theorem run_mailbox_wf (listening : bool) (wakeups : list wakeup)
    (srv : server) :
  (mailbox_wf (srv_queue srv) ->
   mailbox_wf (srv_queue (snd (run this_ip listening wakeups srv))))
  /\ mailbox_wf
       (srv_queue (snd (run this_ip listening wakeups Server_init))).
Proof.
  assert (Hrun : forall srv0, mailbox_wf (srv_queue srv0) ->
             mailbox_wf (srv_queue (snd (run this_ip listening wakeups srv0)))).
  { intros srv0 Hsrv. unfold run.
    destruct listening; [|exact Hsrv].
    unfold finally_close, except_KeyboardInterrupt.
    pose proof (event_loop_keeps_wf wakeups srv0 Hsrv) as Hwf.
    destruct (event_loop this_ip wakeups srv0) as [[u|[e| |]|] srv'];
      exact Hwf. }
  split; [apply Hrun|]. apply Hrun. constructor.
Qed.

Lemma for_events_uninterrupted (events : list event) :
  uninterrupted (for_events this_ip events).
Proof.
  induction events as [|[peer chunks|key mask] more IH];
    cbn [for_events].
  - intros srv. discriminate.
  - apply uninterrupted_tbind; [|intros _; exact IH].
    intros srv. discriminate.
  - apply uninterrupted_tbind; [|intros _; exact IH].
    intros srv. unfold service_key.
    destruct (nth_error (conns srv) key) as [c|]; [|discriminate].
    pose proof (service_connection_uninterrupted mask
                  {| mailbox := srv_queue srv; conn := c |}) as Hu.
    destruct (service_connection this_ip mask _) as [r st]. exact Hu.
Qed.

(** The loop itself never finishes, and only the operator interrupts
    it. *)
Lemma event_loop_outcome (wakeups : list wakeup) (srv : server) :
  (forall u, fst (event_loop this_ip wakeups srv) <> Done u)
  /\ (fst (event_loop this_ip wakeups srv) = Failed KeyboardInterrupt ->
      In Interrupted wakeups).
Proof.
  revert srv. induction wakeups as [|[events|] more IH]; intros srv;
    cbn [event_loop].
  - split; [discriminate|discriminate].
  - unfold tbind.
    pose proof (for_events_uninterrupted events srv) as Hu.
    destruct (for_events this_ip events srv) as [[u|e|] srv'];
      cbn [fst] in *.
    + destruct (IH srv') as [Hdone Hint].
      split; [exact Hdone|]. intros H. right. apply Hint. exact H.
    + split; [discriminate|]. intros H. contradiction.
    + split; discriminate.
  - split; [discriminate|]. intros _. now left.
Qed.

(** X29.  [run] returns only when the operator interrupts it, and it
    never lets the [KeyboardInterrupt] out; whenever it does come to an
    end, normally or with the exception of a failed exchange, the
    selector has been closed. *)
Theorem run_returns_only_when_interrupted (wakeups : list wakeup)
    (srv : server) :
  (fst (run this_ip true wakeups srv) = Done tt -> In Interrupted wakeups)
  /\ fst (run this_ip true wakeups srv) <> Failed KeyboardInterrupt
  /\ (fst (run this_ip true wakeups srv) <> Waits ->
      sel_closed (snd (run this_ip true wakeups srv)) = true).
Proof.
  unfold run, finally_close, except_KeyboardInterrupt.
  destruct (event_loop_outcome wakeups srv) as [Hdone Hint].
  destruct (event_loop this_ip wakeups srv) as [[u|[e| |]|] srv'];
    cbn [fst snd sel_closed] in *.
  - exfalso. exact (Hdone u eq_refl).
  - split; [discriminate|]. split; [discriminate|reflexivity].
  - split; [discriminate|]. split; [discriminate|reflexivity].
  - split; [intros _; apply Hint; reflexivity|].
    split; [discriminate|reflexivity].
  - split; [discriminate|]. split; [discriminate|].
    intros H. contradiction.
Qed.

End EventLoop.

(** ** [short] *)

Section Short.

(** X30.  [short] shows at most the first ten bytes of a payload, and what
    it prints after them depends on the length alone: two payloads of the
    same length that agree on their first ten bytes are printed alike, and
    a payload of ten bytes or fewer is printed whole. *)
Theorem short_first_ten (p q : bytes) :
  (List.length p = List.length q ->
   firstn 10 p = firstn 10 q -> short p = short q)
  /\ firstn (Nat.min 10 (List.length p)) (short p) = firstn 10 p
  /\ ((List.length p <= 10)%nat ->
      firstn (List.length p) (short p) = p).
Proof.
  split; [|split].
  - intros Hlen Hhead. unfold short, str_len. rewrite Hlen.
    destruct (Nat.ltb_spec 10 (List.length q)) as [Hlong|Hshort].
    + now rewrite Hhead.
    + rewrite (firstn_all2 p), (firstn_all2 q) in Hhead by lia.
      now rewrite Hhead.
  - unfold short.
    destruct (Nat.ltb_spec 10 (List.length p)) as [Hlong|Hshort].
    + rewrite Nat.min_l by lia.
      rewrite firstn_app.
      rewrite length_firstn, Nat.min_l by lia.
      rewrite Nat.sub_diag, firstn_O, app_nil_r.
      apply firstn_all2. rewrite length_firstn. lia.
    + rewrite Nat.min_r by lia.
      rewrite firstn_app, Nat.sub_diag, firstn_O, app_nil_r.
      rewrite !firstn_all2 by lia. reflexivity.
  - intros Hshort. unfold short.
    destruct (Nat.ltb_spec 10 (List.length p)) as [Hlong|_]; [lia|].
    rewrite firstn_app, Nat.sub_diag, firstn_O, app_nil_r.
    apply firstn_all2. lia.
Qed.

End Short.

(** ** The further properties at concrete inputs *)

(** X1 at [send_hello]. *)
Lemma pack_unpack_identity_witness :
  (12 <= List.length send_hello)%nat
  /\ exists command src dest payload,
       unpack_message send_hello = Ok (command, src, dest, payload)
       /\ pack_message command src dest payload = Ok send_hello.
Proof.
  assert (Hlen : (12 <= List.length send_hello)%nat) by (simpl; lia).
  split; [exact Hlen|].
  exact (pack_unpack_identity send_hello Hlen).
Defined.

(** X2 at a [SEND] whose source is written in short form. *)
Lemma pack_message_layout_witness :
  pack_message SEND (Some "10.1"%string) (Some relay_ip) hello
  = Ok send_hello
  /\ List.length send_hello = (12 + List.length hello)%nat
  /\ firstn 4 send_hello = u32_to_be SEND
  /\ skipn 12 send_hello = hello.
Proof.
  assert (Hpack : pack_message SEND (Some "10.1"%string) (Some relay_ip)
                    hello = Ok send_hello) by reflexivity.
  split; [exact Hpack|].
  exact (pack_message_layout SEND (Some "10.1"%string) (Some relay_ip)
           hello send_hello Hpack).
Defined.

(** X3 at the same [SEND]: the short form comes back as 10.0.0.1. *)
Lemma pack_message_decodes_witness :
  pack_message SEND (Some "10.1"%string) (Some relay_ip) hello
  = Ok send_hello
  /\ exists src' dest',
       unpack_message send_hello = Ok (SEND, src', dest', hello)
       /\ canonical_addr src' /\ canonical_addr dest'
       /\ pack_message SEND src' dest' hello = Ok send_hello.
Proof.
  assert (Hpack : pack_message SEND (Some "10.1"%string) (Some relay_ip)
                    hello = Ok send_hello) by reflexivity.
  split; [exact Hpack|].
  exact (pack_message_decodes SEND (Some "10.1"%string) (Some relay_ip)
           hello send_hello Hpack).
Defined.

(** X5 at the first eleven bytes of [send_hello]. *)
Lemma handleInteraction_undersized_witness :
  connected accepted_sock
  /\ (List.length (firstn 11 send_hello) < 12)%nat
  /\ handleInteraction relay_ip (firstn 11 send_hello)
       {| queue := [(Some addr_A, hello)]; sock := accepted_sock |}
     = (Raise StructError,
        {| queue := [(Some addr_A, hello)]; sock := accepted_sock |}).
Proof.
  assert (Hlen : (List.length (firstn 11 send_hello) < 12)%nat)
    by (simpl; lia).
  split; [exact accepted_sock_connected|]. split; [exact Hlen|].
  exact (handleInteraction_undersized relay_ip (firstn 11 send_hello)
           {| queue := [(Some addr_A, hello)]; sock := accepted_sock |}
           accepted_sock_connected Hlen).
Defined.

(** X6 at [send_hello]: the reply is [ack_message]. *)
Lemma handleInteraction_ACK_echo_witness :
  connected accepted_sock
  /\ unpack_message send_hello
     = Ok (SEND, Some addr_A, Some relay_ip, hello)
  /\ sock (snd (handleInteraction relay_ip send_hello
                  {| queue := []; sock := accepted_sock |}))
     = sock_send accepted_sock ack_message.
Proof.
  assert (Hun : unpack_message send_hello
                = Ok (SEND, Some addr_A, Some relay_ip, hello))
    by reflexivity.
  split; [exact accepted_sock_connected|]. split; [exact Hun|].
  exact (handleInteraction_ACK_echo relay_ip send_hello (Some addr_A)
           (Some relay_ip) hello {| queue := []; sock := accepted_sock |}
           accepted_sock_connected Hun).
Defined.

(** X7 at two requests from different clients. *)
Lemma handleInteraction_REQ_any_requester_witness :
  unpack_message req_message = Ok (REQ, Some addr_A, None, [])
  /\ unpack_message req_other
     = Ok (REQ, Some "10.0.0.3"%string, Some relay_ip, hello)
  /\ handleInteraction relay_ip req_message
       {| queue := [(Some addr_A, hello)]; sock := accepted_sock |}
     = handleInteraction relay_ip req_other
         {| queue := [(Some addr_A, hello)]; sock := accepted_sock |}.
Proof.
  assert (H1 : unpack_message req_message
               = Ok (REQ, Some addr_A, None, [])) by reflexivity.
  assert (H2 : unpack_message req_other
               = Ok (REQ, Some "10.0.0.3"%string, Some relay_ip, hello))
    by reflexivity.
  split; [exact H1|]. split; [exact H2|].
  exact (handleInteraction_REQ_any_requester relay_ip req_message req_other
           _ _ _ _ _ _
           {| queue := [(Some addr_A, hello)]; sock := accepted_sock |}
           H1 H2).
Defined.

(** X8 at a [SEND], an undersized message and a [REQ] that is not
    reached. *)
Lemma handleInteractions_mailbox_wf_witness :
  mailbox_wf []
  /\ mailbox_wf
       (queue (snd (handleInteractions relay_ip
                      [send_hello; firstn 3 send_hello; req_message]
                      {| queue := []; sock := accepted_sock |}))).
Proof.
  assert (Hwf : mailbox_wf []) by constructor.
  split; [exact Hwf|].
  exact (handleInteractions_mailbox_wf relay_ip
           [send_hello; firstn 3 send_hello; req_message]
           {| queue := []; sock := accepted_sock |} Hwf).
Defined.

(** X9 at an acknowledged [send]. *)
Lemma send_success_iff_ACK_witness :
  (connect_ok (answering ack_message) = true
   /\ (exists message,
         pack_message SEND (Some addr_A) (Some relay_ip) hello = Ok message)
   /\ readable (answering ack_message) = true
   /\ exists src dest reply_payload,
        unpack_message (hd [] (incoming (answering ack_message)))
        = Ok (ACK, src, dest, reply_payload))
  /\ fst (send addr_A relay_ip hello (answering ack_message)) = Ok tt.
Proof.
  assert (H : connect_ok (answering ack_message) = true
              /\ (exists message,
                    pack_message SEND (Some addr_A) (Some relay_ip) hello
                    = Ok message)
              /\ readable (answering ack_message) = true
              /\ exists src dest reply_payload,
                   unpack_message (hd [] (incoming (answering ack_message)))
                   = Ok (ACK, src, dest, reply_payload)).
  { split; [reflexivity|]. split; [exists send_hello; reflexivity|].
    split; [reflexivity|].
    exists (Some addr_A), (Some relay_ip), []. reflexivity. }
  split; [exact H|].
  exact (proj2 (send_success_iff_ACK addr_A relay_ip hello
                  (answering ack_message)) H).
Defined.

(** X10 at a refused connection. *)
Lemma send_ConnectionError_iff_witness :
  connect_ok refusing = false
  /\ fst (send addr_A relay_ip hello refusing) = Raise ConnectionError
  /\ sent (snd (send addr_A relay_ip hello refusing)) = [].
Proof.
  assert (H : connect_ok refusing = false) by reflexivity.
  split; [exact H|].
  split.
  - exact (proj2 (proj1 (send_ConnectionError_iff addr_A relay_ip hello
                           refusing)) H).
  - exact (proj2 (send_ConnectionError_iff addr_A relay_ip hello refusing)
             H).
Defined.

(** X11 at a relay that does not answer. *)
Lemma send_timeout_witness :
  connect_ok silent = true
  /\ pack_message SEND (Some addr_A) (Some relay_ip) hello = Ok send_hello
  /\ readable silent = false
  /\ fst (send addr_A relay_ip hello silent) = Raise AckTimeout
  /\ sent (snd (send addr_A relay_ip hello silent)) = [send_hello].
Proof.
  assert (Hpack : pack_message SEND (Some addr_A) (Some relay_ip) hello
                  = Ok send_hello) by reflexivity.
  split; [reflexivity|]. split; [exact Hpack|]. split; [reflexivity|].
  exact (send_timeout addr_A relay_ip hello send_hello silent
           eq_refl Hpack eq_refl).
Defined.

(** X12 at a host name for a destination. *)
Lemma send_unpackable_destination_witness :
  connect_ok silent = true
  /\ pack_message SEND (Some addr_A) (Some "localhost"%string) hello
     = Raise OSError
  /\ send addr_A "localhost" hello silent
     = (Raise OSError,
        {| peername := Some "localhost"%string; closed := false;
           sent := []; inbox := [] |}).
Proof.
  assert (Hpack : pack_message SEND (Some addr_A) (Some "localhost"%string)
                    hello = Raise OSError) by reflexivity.
  split; [reflexivity|]. split; [exact Hpack|].
  exact (send_unpackable_destination addr_A "localhost" hello silent OSError
           eq_refl Hpack).
Defined.

(** X13 at an acknowledgment that comes in two pieces. *)
Lemma send_short_reply_witness :
  connect_ok (delivering [firstn 5 ack_message; skipn 5 ack_message]) = true
  /\ pack_message SEND (Some addr_A) (Some relay_ip) hello = Ok send_hello
  /\ readable (delivering [firstn 5 ack_message; skipn 5 ack_message])
     = true
  /\ (List.length
        (hd [] (incoming
                  (delivering [firstn 5 ack_message; skipn 5 ack_message])))
      < 12)%nat
  /\ fst (send addr_A relay_ip hello
            (delivering [firstn 5 ack_message; skipn 5 ack_message]))
     = Raise StructError.
Proof.
  assert (Hpack : pack_message SEND (Some addr_A) (Some relay_ip) hello
                  = Ok send_hello) by reflexivity.
  assert (Hlen : (List.length
                    (hd [] (incoming
                              (delivering [firstn 5 ack_message;
                                           skipn 5 ack_message])))
                  < 12)%nat) by (simpl; lia).
  split; [reflexivity|]. split; [exact Hpack|]. split; [reflexivity|].
  split; [exact Hlen|].
  exact (send_short_reply addr_A relay_ip hello send_hello
           (delivering [firstn 5 ack_message; skipn 5 ack_message])
           eq_refl Hpack eq_refl Hlen).
Defined.

(** X14 at [msg_hello] delivered whole and delivered in two pieces. *)
Lemma receive_chunking_witness :
  connect_ok (delivering [firstn 5 msg_hello; skipn 5 msg_hello])
  = connect_ok (delivering [msg_hello])
  /\ readable (delivering [firstn 5 msg_hello; skipn 5 msg_hello])
     = readable (delivering [msg_hello])
  /\ Forall (fun chunk : bytes => chunk <> [])
       (incoming (delivering [firstn 5 msg_hello; skipn 5 msg_hello]))
  /\ Forall (fun chunk : bytes => chunk <> [])
       (incoming (delivering [msg_hello]))
  /\ List.concat
       (incoming (delivering [firstn 5 msg_hello; skipn 5 msg_hello]))
     = List.concat (incoming (delivering [msg_hello]))
  /\ fst (receive addr_A
            (delivering [firstn 5 msg_hello; skipn 5 msg_hello]))
     = fst (receive addr_A (delivering [msg_hello])).
Proof.
  assert (H1 : Forall (fun chunk : bytes => chunk <> [])
                 (incoming (delivering [firstn 5 msg_hello;
                                        skipn 5 msg_hello]))).
  { repeat constructor; discriminate. }
  assert (H2 : Forall (fun chunk : bytes => chunk <> [])
                 (incoming (delivering [msg_hello]))).
  { repeat constructor; discriminate. }
  split; [reflexivity|]. split; [reflexivity|].
  split; [exact H1|]. split; [exact H2|]. split; [reflexivity|].
  exact (receive_chunking addr_A
           (delivering [firstn 5 msg_hello; skipn 5 msg_hello])
           (delivering [msg_hello]) eq_refl eq_refl H1 H2 eq_refl).
Defined.

(** X15 at a relay that answers with [msg_hello]. *)
Lemma receive_success_iff_MSG_witness :
  (connect_ok (answering msg_hello) = true
   /\ (exists message,
         pack_message REQ (Some addr_A) None [] = Ok message)
   /\ readable (answering msg_hello) = true
   /\ exists src dest payload,
        unpack_message
          (fst (drain_inbox (incoming (answering msg_hello)) []))
        = Ok (MSG, src, dest, payload)
        /\ Some (Some addr_A, Some hello)
           = Some (if bytes_eqb payload [] && is_None src
                   then (None, None)
                   else (src, Some payload)))
  /\ fst (receive addr_A (answering msg_hello))
     = Ok (Some (Some addr_A, Some hello)).
Proof.
  assert (H : connect_ok (answering msg_hello) = true
              /\ (exists message,
                    pack_message REQ (Some addr_A) None [] = Ok message)
              /\ readable (answering msg_hello) = true
              /\ exists src dest payload,
                   unpack_message
                     (fst (drain_inbox (incoming (answering msg_hello)) []))
                   = Ok (MSG, src, dest, payload)
                   /\ Some (Some addr_A, Some hello)
                      = Some (if bytes_eqb payload [] && is_None src
                              then (None, None)
                              else (src, Some payload))).
  { split; [reflexivity|]. split; [exists req_message; reflexivity|].
    split; [reflexivity|].
    exists (Some addr_A), (Some relay_ip), hello.
    split; reflexivity. }
  split; [exact H|].
  exact (proj2 (receive_success_iff_MSG addr_A (answering msg_hello)
                  (Some (Some addr_A, Some hello))) H).
Defined.

(** X16 at a relay that does not answer, and at one that answers with an
    [ACK]. *)
Lemma receive_ReceiveError_iff_witness :
  (connect_ok silent = true
   /\ (exists message,
         pack_message REQ (Some addr_A) None [] = Ok message)
   /\ (readable silent = false
       \/ exists command src dest payload,
            unpack_message (fst (drain_inbox (incoming silent) []))
            = Ok (command, src, dest, payload)
            /\ command <> MSG))
  /\ fst (receive addr_A silent) = Raise ReceiveError
  /\ closed (snd (receive addr_A silent)) = true.
Proof.
  assert (H : connect_ok silent = true
              /\ (exists message,
                    pack_message REQ (Some addr_A) None [] = Ok message)
              /\ (readable silent = false
                  \/ exists command src dest payload,
                       unpack_message
                         (fst (drain_inbox (incoming silent) []))
                       = Ok (command, src, dest, payload)
                       /\ command <> MSG)).
  { split; [reflexivity|]. split; [exists req_message; reflexivity|].
    left. reflexivity. }
  split; [exact H|].
  split.
  - exact (proj2 (proj1 (receive_ReceiveError_iff addr_A silent)) H).
  - exact (proj2 (receive_ReceiveError_iff addr_A silent)
             (proj2 (proj1 (receive_ReceiveError_iff addr_A silent)) H)).
Defined.

(** X17 at a relay that closes without answering. *)
Lemma receive_short_reply_witness :
  connect_ok (delivering []) = true
  /\ pack_message REQ (Some addr_A) None [] = Ok req_message
  /\ readable (delivering []) = true
  /\ (List.length (fst (drain_inbox (incoming (delivering [])) [])) < 12)%nat
  /\ fst (receive addr_A (delivering [])) = Raise StructError
  /\ closed (snd (receive addr_A (delivering []))) = false.
Proof.
  assert (Hpack : pack_message REQ (Some addr_A) None [] = Ok req_message)
    by reflexivity.
  assert (Hlen : (List.length
                    (fst (drain_inbox (incoming (delivering [])) []))
                  < 12)%nat) by (simpl; lia).
  split; [reflexivity|]. split; [exact Hpack|]. split; [reflexivity|].
  split; [exact Hlen|].
  exact (receive_short_reply addr_A (delivering []) req_message
           eq_refl Hpack eq_refl Hlen).
Defined.

(** X18 at [hello] sent by [addr_A]. *)
Lemma send_stored_and_acknowledged_witness :
  canonical_addr (Some addr_A)
  /\ connected accepted_sock
  /\ pack_message SEND (Some addr_A) (Some relay_ip) hello = Ok send_hello
  /\ exists reply,
       (forall net, connect_ok net = true ->
          sent (snd (send addr_A relay_ip hello net)) = [send_hello])
       /\ handleInteraction relay_ip send_hello
            {| queue := []; sock := accepted_sock |}
          = (Ok tt, {| queue := [(Some addr_A, hello)];
                       sock := sock_send accepted_sock reply |})
       /\ fst (send addr_A relay_ip hello (answering reply)) = Ok tt.
Proof.
  assert (Hpack : pack_message SEND (Some addr_A) (Some relay_ip) hello
                  = Ok send_hello) by reflexivity.
  split; [exact canonical_addr_A|].
  split; [exact accepted_sock_connected|]. split; [exact Hpack|].
  exact (send_stored_and_acknowledged relay_ip addr_A relay_ip hello
           send_hello {| queue := []; sock := accepted_sock |}
           canonical_addr_A accepted_sock_connected Hpack).
Defined.

(** X19 at a stored entry with no source and an empty payload: it is
    taken off the mailbox and the client is told there was nothing. *)
Lemma mailbox_head_received_witness :
  canonical_addr None
  /\ connected accepted_sock
  /\ inet_aton relay_ip = Ok [x0a; x00; x00; x02]
  /\ pack_message REQ (Some addr_A) None [] = Ok req_message
  /\ exists reply,
       (forall net, connect_ok net = true ->
          sent (snd (receive addr_A net)) = [req_message])
       /\ handleInteraction relay_ip req_message
            {| queue := [(None, []); (Some addr_A, hello)];
               sock := accepted_sock |}
          = (Ok tt, {| queue := [(Some addr_A, hello)];
                       sock := sock_send accepted_sock reply |})
       /\ fst (receive addr_A (answering reply)) = Ok (Some (None, None)).
Proof.
  assert (Hip : inet_aton relay_ip = Ok [x0a; x00; x00; x02])
    by reflexivity.
  assert (Hpack : pack_message REQ (Some addr_A) None [] = Ok req_message)
    by reflexivity.
  split; [exact I|]. split; [exact accepted_sock_connected|].
  split; [exact Hip|]. split; [exact Hpack|].
  exact (mailbox_head_received relay_ip addr_A req_message
           [x0a; x00; x00; x02] None [] [(Some addr_A, hello)]
           accepted_sock I accepted_sock_connected Hip Hpack).
Defined.

(** X20 at an empty payload sent by [addr_A]. *)
Lemma store_and_forward_witness :
  canonical_addr (Some addr_A)
  /\ connected accepted_sock
  /\ inet_aton relay_ip = Ok [x0a; x00; x00; x02]
  /\ pack_message SEND (Some addr_A) (Some relay_ip) []
     = Ok (firstn 12 send_hello)
  /\ pack_message REQ (Some addr_A) None [] = Ok req_message
  /\ exists ack reply,
       handleInteraction relay_ip (firstn 12 send_hello)
         {| queue := []; sock := accepted_sock |}
       = (Ok tt, {| queue := [(Some addr_A, [])];
                    sock := sock_send accepted_sock ack |})
       /\ fst (send addr_A relay_ip [] (answering ack)) = Ok tt
       /\ handleInteraction relay_ip req_message
            {| queue := [(Some addr_A, [])]; sock := accepted_sock |}
          = (Ok tt, {| queue := [];
                       sock := sock_send accepted_sock reply |})
       /\ fst (receive addr_A (answering reply))
          = Ok (Some (Some addr_A, Some [])).
Proof.
  assert (Hip : inet_aton relay_ip = Ok [x0a; x00; x00; x02])
    by reflexivity.
  assert (Hpack : pack_message SEND (Some addr_A) (Some relay_ip) []
                  = Ok (firstn 12 send_hello)) by reflexivity.
  assert (Hreq : pack_message REQ (Some addr_A) None [] = Ok req_message)
    by reflexivity.
  split; [exact canonical_addr_A|].
  split; [exact accepted_sock_connected|].
  split; [exact Hip|]. split; [exact Hpack|]. split; [exact Hreq|].
  exact (store_and_forward relay_ip addr_A relay_ip addr_A []
           (firstn 12 send_hello) req_message [x0a; x00; x00; x02]
           accepted_sock accepted_sock
           canonical_addr_A accepted_sock_connected accepted_sock_connected
           Hip Hpack Hreq).
Defined.

(** X22 at a [REQ] with a destination and a payload, on a mailbox that
    holds an entry. *)
Lemma handleInteraction_returns_witness :
  connected accepted_sock
  /\ mailbox_wf [(Some addr_A, hello)]
  /\ inet_aton relay_ip = Ok [x0a; x00; x00; x02]
  /\ (12 <= List.length req_other)%nat
  /\ fst (handleInteraction relay_ip req_other
            {| queue := [(Some addr_A, hello)]; sock := accepted_sock |})
     = Ok tt.
Proof.
  assert (Hwf : mailbox_wf [(Some addr_A, hello)]).
  { constructor; [exact canonical_addr_A|constructor]. }
  assert (Hip : inet_aton relay_ip = Ok [x0a; x00; x00; x02])
    by reflexivity.
  assert (Hlen : (12 <= List.length req_other)%nat) by (simpl; lia).
  split; [exact accepted_sock_connected|]. split; [exact Hwf|].
  split; [exact Hip|]. split; [exact Hlen|].
  exact (handleInteraction_returns relay_ip req_other [x0a; x00; x00; x02]
           {| queue := [(Some addr_A, hello)]; sock := accepted_sock |}
           accepted_sock_connected Hwf Hip Hlen).
Defined.

(** X23 at [send_hello] followed by more bytes: the message is stored and
    acknowledged, the connection is closed and the bytes that followed are
    left unread. *)
Lemma service_connection_one_exchange_witness :
  truthy (Z.land READ_WRITE EVENT_READ) = true
  /\ truthy (Z.land READ_WRITE EVENT_WRITE) = true
  /\ send_hello <> []
  /\ (12 <= List.length ([] ++ send_hello))%nat
  /\ mailbox_wf []
  /\ inet_aton relay_ip = Ok [x0a; x00; x00; x02]
  /\ service_connection relay_ip READ_WRITE
       {| mailbox := []; conn := accepted [send_hello; hello] |}
     = (Done tt,
        {| mailbox := [(Some addr_A, hello)];
           conn := {| conn_sock := {| peername := Some addr_A;
                                      closed := true;
                                      sent := [ack_message];
                                      inbox := [hello] |};
                      outb := send_hello; registered := false |} |}).
Proof.
  assert (Hne : send_hello <> []) by discriminate.
  assert (Hlen : (12 <= List.length ([] ++ send_hello))%nat)
    by (simpl; lia).
  assert (Hwf : mailbox_wf []) by constructor.
  assert (Hip : inet_aton relay_ip = Ok [x0a; x00; x00; x02])
    by reflexivity.
  split; [reflexivity|]. split; [reflexivity|]. split; [exact Hne|].
  split; [exact Hlen|]. split; [exact Hwf|]. split; [exact Hip|].
  exact (service_connection_one_exchange relay_ip READ_WRITE [] addr_A []
           [] send_hello [hello] [x0a; x00; x00; x02]
           eq_refl eq_refl Hne Hlen Hwf Hip).
Defined.

(** X24 at a first chunk of two bytes. *)
Lemma service_connection_short_chunk_witness :
  truthy (Z.land READ_WRITE EVENT_READ) = true
  /\ truthy (Z.land READ_WRITE EVENT_WRITE) = true
  /\ [x00; x00] <> @nil byte
  /\ (List.length ([] ++ [x00; x00]) < 12)%nat
  /\ service_connection relay_ip READ_WRITE
       {| mailbox := [(Some addr_A, hello)];
          conn := accepted [[x00; x00]; [x00]] |}
     = (Failed (Lib StructError),
        {| mailbox := [(Some addr_A, hello)];
           conn := {| conn_sock := pending_sock [[x00]];
                      outb := [x00; x00]; registered := true |} |}).
Proof.
  assert (Hne : [x00; x00] <> @nil byte) by discriminate.
  assert (Hlen : (List.length ([] ++ [x00; x00]) < 12)%nat)
    by (simpl; lia).
  split; [reflexivity|]. split; [reflexivity|]. split; [exact Hne|].
  split; [exact Hlen|].
  exact (service_connection_short_chunk relay_ip READ_WRITE
           [(Some addr_A, hello)] addr_A [] [] [x00; x00] [[x00]]
           eq_refl eq_refl Hne Hlen).
Defined.

(** X25 at [send_hello] buffered on a connection the peer has closed. *)
Lemma service_connection_closed_with_buffer_witness :
  truthy (Z.land READ_WRITE EVENT_READ) = true
  /\ truthy (Z.land READ_WRITE EVENT_WRITE) = true
  /\ send_hello <> []
  /\ service_connection relay_ip READ_WRITE
       {| mailbox := [];
          conn := {| conn_sock := pending_sock [];
                     outb := send_hello; registered := true |} |}
     = (Failed (Lib OSError),
        {| mailbox := [];
           conn := {| conn_sock := {| peername := Some addr_A;
                                      closed := true; sent := [];
                                      inbox := [] |};
                      outb := send_hello; registered := false |} |}).
Proof.
  assert (Hne : send_hello <> []) by discriminate.
  split; [reflexivity|]. split; [reflexivity|]. split; [exact Hne|].
  exact (service_connection_closed_with_buffer relay_ip READ_WRITE []
           addr_A [] send_hello eq_refl eq_refl Hne).
Defined.

(** X26 at [send_hello] cut after the second byte of its payload. *)
Lemma service_connection_truncates_witness :
  truthy (Z.land READ_WRITE EVENT_READ) = true
  /\ truthy (Z.land READ_WRITE EVENT_WRITE) = true
  /\ canonical_addr (Some addr_A)
  /\ pack_message SEND (Some addr_A) (Some relay_ip) (firstn 2 hello)
     = Ok (firstn 14 send_hello)
  /\ pack_message SEND (Some addr_A) (Some relay_ip)
       (firstn 2 hello ++ skipn 2 hello)
     = Ok (firstn 14 send_hello ++ skipn 2 hello)
  /\ exists ack src dest,
       unpack_message ack = Ok (ACK, src, dest, [])
       /\ service_connection relay_ip READ_WRITE
            {| mailbox := [];
               conn := accepted [firstn 14 send_hello; skipn 2 hello] |}
          = (Done tt,
             {| mailbox := [(Some addr_A, firstn 2 hello)];
                conn := {| conn_sock := {| peername := Some addr_A;
                                           closed := true;
                                           sent := [ack];
                                           inbox := [skipn 2 hello] |};
                           outb := firstn 14 send_hello;
                           registered := false |} |}).
Proof.
  assert (Hpack : pack_message SEND (Some addr_A) (Some relay_ip)
                    (firstn 2 hello) = Ok (firstn 14 send_hello))
    by reflexivity.
  split; [reflexivity|]. split; [reflexivity|].
  split; [exact canonical_addr_A|]. split; [exact Hpack|].
  exact (service_connection_truncates relay_ip READ_WRITE [] addr_A addr_A
           relay_ip [] (firstn 2 hello) (skipn 2 hello)
           (firstn 14 send_hello) [] eq_refl eq_refl canonical_addr_A
           Hpack).
Defined.

(** X27 at a server with one connection whose first chunk has two bytes,
    the operator's interrupt coming too late. *)
Lemma run_stopped_by_short_chunk_witness :
  nth_error
    (conns {| srv_queue := [(Some addr_A, hello)];
              conns := [accepted [[x00; x00]]]; sel_closed := false |}) 0
  = Some {| conn_sock := {| peername := Some addr_A; closed := false;
                            sent := []; inbox := [[x00; x00]] |};
            outb := []; registered := true |}
  /\ truthy (Z.land READ_WRITE EVENT_READ) = true
  /\ truthy (Z.land READ_WRITE EVENT_WRITE) = true
  /\ [x00; x00] <> @nil byte
  /\ (List.length ([] ++ [x00; x00]) < 12)%nat
  /\ run relay_ip true
       [Selected [Ready 0 READ_WRITE; Incoming addr_A [req_message]];
        Interrupted]
       {| srv_queue := [(Some addr_A, hello)];
          conns := [accepted [[x00; x00]]]; sel_closed := false |}
     = (Failed (Lib StructError),
        {| srv_queue := [(Some addr_A, hello)];
           conns := [{| conn_sock := pending_sock [];
                        outb := [x00; x00]; registered := true |}];
           sel_closed := true |}).
Proof.
  assert (Hne : [x00; x00] <> @nil byte) by discriminate.
  assert (Hlen : (List.length ([] ++ [x00; x00]) < 12)%nat)
    by (simpl; lia).
  split; [reflexivity|]. split; [reflexivity|]. split; [reflexivity|].
  split; [exact Hne|]. split; [exact Hlen|].
  exact (run_stopped_by_short_chunk relay_ip 0 READ_WRITE
           {| srv_queue := [(Some addr_A, hello)];
              conns := [accepted [[x00; x00]]]; sel_closed := false |}
           addr_A [] [] [x00; x00] []
           [Incoming addr_A [req_message]] [Interrupted]
           eq_refl eq_refl eq_refl Hne Hlen).
Defined.

(** X28 at a server that already holds an entry and serves a [SEND]. *)
Lemma run_mailbox_wf_witness :
  mailbox_wf [(Some addr_A, hello)]
  /\ mailbox_wf
       (srv_queue
          (snd (run relay_ip true
                  [Selected [Incoming addr_A [send_hello]];
                   Selected [Ready 0 READ_WRITE]; Interrupted]
                  {| srv_queue := [(Some addr_A, hello)]; conns := [];
                     sel_closed := false |}))).
Proof.
  assert (Hwf : mailbox_wf [(Some addr_A, hello)]).
  { constructor; [exact canonical_addr_A|constructor]. }
  split; [exact Hwf|].
  exact (proj1 (run_mailbox_wf relay_ip true
                  [Selected [Incoming addr_A [send_hello]];
                   Selected [Ready 0 READ_WRITE]; Interrupted]
                  {| srv_queue := [(Some addr_A, hello)]; conns := [];
                     sel_closed := false |}) Hwf).
Defined.

(** X29 at a server that serves one [SEND] and is then interrupted. *)
Lemma run_returns_only_when_interrupted_witness :
  fst (run relay_ip true
         [Selected [Incoming addr_A [send_hello]];
          Selected [Ready 0 READ_WRITE]; Interrupted] Server_init)
  = Done tt
  /\ In Interrupted
       [Selected [Incoming addr_A [send_hello]];
        Selected [Ready 0 READ_WRITE]; Interrupted]
  /\ fst (run relay_ip true
            [Selected [Incoming addr_A [send_hello]];
             Selected [Ready 0 READ_WRITE]; Interrupted] Server_init)
     <> Waits
  /\ sel_closed
       (snd (run relay_ip true
               [Selected [Incoming addr_A [send_hello]];
                Selected [Ready 0 READ_WRITE]; Interrupted] Server_init))
     = true.
Proof.
  assert (Hdone : fst (run relay_ip true
                         [Selected [Incoming addr_A [send_hello]];
                          Selected [Ready 0 READ_WRITE]; Interrupted]
                         Server_init) = Done tt) by reflexivity.
  assert (Hnot : fst (run relay_ip true
                        [Selected [Incoming addr_A [send_hello]];
                         Selected [Ready 0 READ_WRITE]; Interrupted]
                        Server_init) <> Waits) by discriminate.
  split; [exact Hdone|].
  split.
  - exact (proj1 (run_returns_only_when_interrupted relay_ip _ Server_init)
             Hdone).
  - split; [exact Hnot|].
    exact (proj2 (proj2 (run_returns_only_when_interrupted relay_ip _
                           Server_init)) Hnot).
Defined.

(** X30 at two payloads of eleven bytes that differ in the last, and at
    [hello]. *)
Lemma short_first_ten_witness :
  List.length (hello ++ hello ++ [x21])
  = List.length (hello ++ hello ++ [x3f])
  /\ firstn 10 (hello ++ hello ++ [x21])
     = firstn 10 (hello ++ hello ++ [x3f])
  /\ short (hello ++ hello ++ [x21]) = short (hello ++ hello ++ [x3f])
  /\ (List.length hello <= 10)%nat
  /\ firstn (List.length hello) (short hello) = hello.
Proof.
  assert (Hle : (List.length hello <= 10)%nat) by (simpl; lia).
  split; [reflexivity|]. split; [reflexivity|].
  split.
  - exact (proj1 (short_first_ten (hello ++ hello ++ [x21])
                    (hello ++ hello ++ [x3f])) eq_refl eq_refl).
  - split; [exact Hle|].
    exact (proj2 (proj2 (short_first_ten hello hello)) Hle).
Defined.
